(** * Windows-Collector: the acquisition pipeline of collector.go and volume.go

    A shallow embedding of [Collect], [getFiles], [resolveEnv],
    [GetVolumeHandler], [GetHandle], [isLetter] and
    [identifyVolumesOfInterest].  Go strings are byte strings ([string]);
    slices that the code updates by index are lists together with the
    state of their backing array; the actions the code performs on the
    outside world (opening a device, sending on the channel, waiting on
    the wait group) are recorded in program order in a trace. *)

From stdpp Require Import prelude strings.
From Stdlib Require Import ZArith String Ascii.
From Stdlib.Strings Require Import Byte.

Local Open Scope string_scope.
Local Open Scope list_scope.
Local Open Scope Z_scope.

(** ** Go errors and fallible results *)

(** [errors.New] and [fmt.Errorf] without the wrapping verb give an
    [errorString]; [fmt.Errorf] with the wrapping verb gives a [wrapError]
    whose [msg] is the formatted text that precedes the wrapped cause. *)
Inductive error : Type :=
| errorString (msg : string)
| wrapError (msg : string) (cause : error).

Inductive result (A : Type) : Type :=
| Ok (a : A)
| Err (e : error).
Arguments Ok {A} a.
Arguments Err {A} e.

Definition isErr {A} (r : result A) : bool :=
  match r with Ok _ => false | Err _ => true end.

(** ** ASCII helpers *)

Definition code (c : ascii) : Z := Z.of_nat (nat_of_ascii c).

Definition isUpperASCII (c : ascii) : bool := (65 <=? code c) && (code c <=? 90).
Definition isLowerASCII (c : ascii) : bool := (97 <=? code c) && (code c <=? 122).
Definition isASCIILetter (c : ascii) : bool := isUpperASCII c || isLowerASCII c.

Definition lowerASCII (c : ascii) : ascii :=
  if isUpperASCII c then ascii_of_nat (nat_of_ascii c + 32) else c.

(** The lowering of a string all of whose bytes are ASCII. *)
Fixpoint asciiToLower (s : string) : string :=
  match s with
  | EmptyString => EmptyString
  | String c s' => String (lowerASCII c) (asciiToLower s')
  end.

(** ** Data model *)

(** One entry of [ListOfFilesToExport]. *)
Record FileToExport : Type := mkFileToExport {
  FullPath : string;
  IsFullPathRegex : bool;
  FileName : string;
  IsFileNameRegex : bool;
}.

Definition setFullPath (e : FileToExport) (s : string) : FileToExport :=
  {| FullPath := s;
     IsFullPathRegex := IsFullPathRegex e;
     FileName := FileName e;
     IsFileNameRegex := IsFileNameRegex e |}.

(** Modelled from the spec: the search term, whose declaration is not
    among the sources.  It is derived from a request after expansion and
    carries the pieces that are matched, the full path and the file
    name; [getFiles] reads the field [fileNameString] only. *)
Record searchTerms : Type := mkSearchTerms {
  fullPathString : string;
  fileNameString : string;
}.

(** Modelled from the spec: a data run, declared by the MFT parser
    outside the repository.  It is a length in clusters and a starting
    cluster, [None] for a sparse run. *)
Record DataRun : Type := mkDataRun {
  runLength : Z;
  runStart : option Z;
}.

Record foundFile : Type := mkFoundFile {
  dataRuns : list DataRun;
  fullPath : string;
}.

(** The parsed record 0, reduced to
    [DataAttribute.NonResidentDataAttribute.DataRuns]. *)
Record MasterFileTableRecord : Type := mkMftRecord {
  DataRuns : list DataRun;
}.

(** Modelled from the spec: the geometry decoded from the boot record,
    declared by the boot-record parser outside the repository. *)
Record VolumeBootRecord : Type := mkVbr {
  BytesPerSector : Z;
  SectorsPerCluster : Z;
  BytesPerCluster : Z;
  MftByteOffset : Z;
}.

(** An [*os.File], identified by its descriptor. *)
Definition File : Type := Z.

(** The [io.Reader] values that the pipeline builds. *)
Inductive reader : Type :=
| fileR (h : File)
    (* the reader returned by a successful apiFileReader *)
| rawR (h : File) (vbr : VolumeBootRecord) (f : foundFile)
    (* rawFileReader(volumeHandler, f): the extents of f on the volume *)
| teeR (src : reader)
    (* io.TeeReader(src, pipeWriter) *)
| pipeR.
    (* the read half of io.Pipe() *)

Record VolumeHandler : Type := mkVolumeHandler {
  Handle : File;
  VolumeLetter : string;
  Vbr : VolumeBootRecord;
  mftReader : option reader;
  lastReadVolumeOffset : Z;
}.

Definition setMftReader (v : VolumeHandler) (r : reader) : VolumeHandler :=
  {| Handle := Handle v;
     VolumeLetter := VolumeLetter v;
     Vbr := Vbr v;
     mftReader := Some r;
     lastReadVolumeOffset := lastReadVolumeOffset v |}.

Definition rawFileReader (v : VolumeHandler) (f : foundFile) : reader :=
  rawR (Handle v) (Vbr v) f.

(** An element of the channel [fileReaders]. *)
Record fileReader : Type := mkFileReader {
  fr_fullPath : string;
  fr_reader : reader;
}.

(** Modelled from the spec: the directory tree, from record identifiers
    to paths, and the candidate hits; their declarations are not among
    the sources.  [getFiles] only hands them from [findPossibleMatches]
    to [confirmFoundFiles]. *)
Definition DirectoryTree : Type := list (Z * string).
Definition possibleMatches : Type := list (Z * string).

(** ** The collaborators

    Libraries outside the repository, the injected [handler], and the
    functions of the repository whose bodies are not among the sources
    at hand.  Each is a function of its arguments. *)
Record World : Type := mkWorld {
  (* registry.ExpandString: the string and the error it returns *)
  registry_ExpandString : string -> string * option error;
  (* strings.ToLower, unicode.IsLetter *)
  strings_ToLower : string -> string;
  unicode_IsLetter : Z -> bool;
  (* injectedHandlerDependency.GetHandle *)
  handler_GetHandle : string -> result File;
  (* the buffer after Handle.Read into a fresh buffer of n bytes *)
  File_Read : File -> nat -> result (list byte);
  (* vbr.RawVolumeBootRecord(b).Parse() *)
  vbr_Parse : list byte -> result VolumeBootRecord;
  setupSearchTerms : list FileToExport -> result (list searchTerms);
  parseMFTRecord0 : VolumeHandler -> result MasterFileTableRecord;
  findPossibleMatches :
    VolumeHandler -> list searchTerms -> result (possibleMatches * DirectoryTree);
  confirmFoundFiles :
    list searchTerms -> possibleMatches -> DirectoryTree -> list foundFile;
  apiFileReader : foundFile -> result File;
  (* pipeWriter.Close() *)
  pipeWriter_Close : option error;
}.

(** ** State and trace *)

Inductive Event : Type :=
| EvGetHandle (volumeLetter : string)
    (* handler.GetHandle(volumeLetter) *)
| EvGo (volumeLetter : string)
    (* go resultWriter.ResultWriter(fileReaders, &waitForFileCopying) *)
| EvSeek (h : File) (offset : Z)
    (* volumeHandler.Handle.Seek(offset, 0) *)
| EvSend (fr : fileReader)
    (* fileReaders <- fr *)
| EvWalk (v : VolumeHandler) (terms : list searchTerms)
    (* findPossibleMatches(v, terms) *)
| EvPipeClose
    (* pipeWriter.Close() *)
| EvCloseChan
    (* close(fileReaders) *)
| EvWait.
    (* waitForFileCopying.Wait() *)

Record State : Type := mkState {
  exportList_mem : list FileToExport;   (* backing array of exportList *)
  searchTerms_mem : list searchTerms;   (* backing array of searchTerms *)
  openVolumes : list File;              (* device descriptors held open *)
  trace : list Event;
}.

Definition initState (exportList : list FileToExport) : State :=
  {| exportList_mem := exportList; searchTerms_mem := [];
     openVolumes := []; trace := [] |}.

Definition M (A : Type) : Type := State -> State * result A.

#[global] Instance M_ret : MRet M := fun A a st => (st, Ok a).
#[global] Instance M_bind : MBind M := fun A B f m st =>
  match m st with
  | (st', Ok a) => f a st'
  | (st', Err e) => (st', Err e)
  end.

Definition emit (ev : Event) : M unit := fun st =>
  ({| exportList_mem := exportList_mem st;
      searchTerms_mem := searchTerms_mem st;
      openVolumes := openVolumes st;
      trace := trace st ++ [ev] |}, Ok tt).

Definition opened (h : File) : M unit := fun st =>
  ({| exportList_mem := exportList_mem st;
      searchTerms_mem := searchTerms_mem st;
      openVolumes := openVolumes st ++ [h];
      trace := trace st |}, Ok tt).

Definition setSearchTerms (l : list searchTerms) : M unit := fun st =>
  ({| exportList_mem := exportList_mem st;
      searchTerms_mem := l;
      openVolumes := openVolumes st;
      trace := trace st |}, Ok tt).

Definition get : M State := fun st => (st, Ok st).

Definition fail {A} (e : error) : M A := fun st => (st, Err e).

(** [r] with its error, if any, wrapped as [fmt.Errorf(msg + cause)]. *)
Definition orWrap {A} (r : result A) (msg : string) : M A := fun st =>
  match r with
  | Ok a => (st, Ok a)
  | Err e => (st, Err (wrapError msg e))
  end.

Definition wrap {A} (msg : string) (m : M A) : M A := fun st =>
  match m st with
  | (st', Ok a) => (st', Ok a)
  | (st', Err e) => (st', Err (wrapError msg e))
  end.

(** ** volume.go *)

(** The request that [GetHandle] hands to [syscall.CreateFile]. *)
Record CreateFileCall : Type := mkCreateFileCall {
  lpFileName : option string;
  dwDesiredAccess : Z;
  dwShareMode : Z;
  dwCreationDisposition : Z;
  dwFlagsAndAttributes : Z;
  hTemplateFile : Z;
}.

(** Access rights and share modes of the Windows API (winnt.h). *)
Definition FILE_READ_ATTRIBUTES : Z := 0x80.
Definition GENERIC_READ : Z := 0x80000000.
Definition FILE_SHARE_READ : Z := 0x1.
Definition FILE_SHARE_WRITE : Z := 0x2.
Definition OPEN_EXISTING : Z := 0x3.

Definition uint32 (z : Z) : Z := z mod 2 ^ 32.

Fixpoint hasNUL (s : string) : bool :=
  match s with
  | EmptyString => false
  | String c s' => (code c =? 0) || hasNUL s'
  end.

(** [syscall.UTF16PtrFromString], whose error [GetHandle] drops: a nil
    pointer for a string with a NUL byte. *)
Definition UTF16PtrFromString (s : string) : option string :=
  if hasNUL s then None else Some s.

Definition GetHandle_call (volumeLetter : string) : CreateFileCall :=
  let dwDesiredAccess := uint32 0x80000000 in (* 0x80 FILE_READ_ATTRIBUTES *)
  let dwShareMode := uint32 (Z.lor 0x02 0x01) in
  let dwCreationDisposition := uint32 0x03 in
  let dwFlagsAndAttributes := uint32 0x00 in
  let volumePath := UTF16PtrFromString ("\\.\" +:+ volumeLetter +:+ ":") in
  {| lpFileName := volumePath;
     dwDesiredAccess := dwDesiredAccess;
     dwShareMode := dwShareMode;
     dwCreationDisposition := dwCreationDisposition;
     dwFlagsAndAttributes := dwFlagsAndAttributes;
     hTemplateFile := 0 |}.

(** [VolumeHandler.GetHandle], over the system call. *)
Definition GetHandle (syscall_CreateFile : CreateFileCall -> result Z)
    (volumeLetter : string) : result File :=
  match syscall_CreateFile (GetHandle_call volumeLetter) with
  | Err err =>
      Err (wrapError ("getHandle() failed to get handle to volume "
                      +:+ volumeLetter +:+ ": ") err)
  | Ok syscallHandle => Ok syscallHandle
  end.

(** The match of the pattern [[^:]+] that [FindString] returns: the
    leftmost longest run of bytes other than the colon, or the empty
    string. *)
Fixpoint skipColons (s : string) : string :=
  match s with
  | EmptyString => EmptyString
  | String c s' => if decide (c = ":"%char) then skipColons s' else s
  end.

Fixpoint upToColon (s : string) : string :=
  match s with
  | EmptyString => EmptyString
  | String c s' =>
      if decide (c = ":"%char) then EmptyString else String c (upToColon s')
  end.

Definition re_FindString (s : string) : string := upToColon (skipColons s).

(** The rune that [range] yields for a string of one byte. *)
Definition runeOfByte (c : ascii) : Z :=
  if code c <? 0x80 then code c else 0xFFFD.

Section Pipeline.

Context (w : World).

Definition isLetter (s : string) : result bool :=
  match s with
  | EmptyString => Err (errorString "isLetter() received a null string")
  | String c EmptyString => Ok (unicode_IsLetter w (runeOfByte c))
  | String _ (String _ _) =>
      Err (errorString ("isLetter() received the string " +:+ s +:+
             " which is too many letters, function expected a single letter"))
  end.

(** The loop of [identifyVolumesOfInterest], from the volumes tracked so
    far. *)
Fixpoint identifyVolumes (volumesOfInterest : list string)
    (exportList : list FileToExport) : result (list string) :=
  match exportList with
  | [] => Ok volumesOfInterest
  | fileToExport :: rest =>
      let volume := re_FindString (strings_ToLower w (FullPath fileToExport)) in
      match isLetter volume with
      | Err err => Err (wrapError "isLetter() returned an error: " err)
      | Ok false =>
          Err (errorString ("isLetter() indicated that the full path string "
                 +:+ FullPath fileToExport +:+ " does not start with a letter"))
      | Ok true =>
          let isTracked := bool_decide (volume ∈ volumesOfInterest) in
          if isTracked then identifyVolumes volumesOfInterest rest
          else identifyVolumes (volumesOfInterest ++ [volume]) rest
      end
  end.

Definition identifyVolumesOfInterest (exportList : list FileToExport)
    : result (list string) :=
  identifyVolumes [] exportList.

Definition volumeBootRecordSize : nat := 512.

Definition GetVolumeHandler (volumeLetter : string) : M VolumeHandler :=
  emit (EvGetHandle volumeLetter);;
  handle ← orWrap (handler_GetHandle w volumeLetter)
    ("GetVolumeHandler() failed to get handle to volume " +:+ volumeLetter +:+ ": ");
  opened handle;;
  volumeBootRecord ← orWrap (File_Read w handle volumeBootRecordSize)
    ("GetVolumeHandler() failed to read the volume boot record on volume "
       +:+ volumeLetter +:+ ": ");
  vbr ← orWrap (vbr_Parse w volumeBootRecord)
    ("GetVolumeHandler() failed to parse vbr from volume letter "
       +:+ volumeLetter +:+ ": ");
  mret {| Handle := handle; VolumeLetter := volumeLetter; Vbr := vbr;
          mftReader := None; lastReadVolumeOffset := 0 |}.

(** ** collector.go *)

(** [resolveEnv] on the backing array: the array after the call and the
    error returned.  The entry at which expansion fails has already been
    overwritten with the string that came back with the error. *)
Fixpoint resolveEnv (exportList : list FileToExport)
    : list FileToExport * option error :=
  match exportList with
  | [] => ([], None)
  | e :: rest =>
      let '(s, err) := registry_ExpandString w (FullPath e) in
      match err with
      | Some err =>
          (setFullPath e s :: rest,
           Some (wrapError ("resolving environment variables from " +:+ s +:+ ": ") err))
      | None =>
          let '(rest', r) := resolveEnv rest in (setFullPath e s :: rest', r)
      end
  end.

Definition resolveEnvM : M unit := fun st =>
  let '(mem, r) := resolveEnv (exportList_mem st) in
  let st' := {| exportList_mem := mem;
                searchTerms_mem := searchTerms_mem st;
                openVolumes := openVolumes st;
                trace := trace st |} in
  match r with
  | None => (st', Ok tt)
  | Some err => (st', Err err)
  end.

(** The index at which the loop over [listOfSearchKeywords] finds its
    first term named [$mft]. *)
Fixpoint indexOfMft (index : nat) (l : list searchTerms) : option nat :=
  match l with
  | [] => None
  | value :: rest =>
      if decide (fileNameString value = "$mft") then Some index
      else indexOfMft (S index) rest
  end.

(** The loop that deletes the first [$mft] term of a slice [l] covering
    its whole backing array: whether a term was found, the backing array
    after the loop, and the slice after the loop. *)
Definition deleteMftTerm (l : list searchTerms)
    : bool * list searchTerms * list searchTerms :=
  match indexOfMft 0 l with
  | Some index =>
      let mem := match l !! (List.length l - 1)%nat with
                 | Some lastTerm => <[index := lastTerm]> l
                 | None => l
                 end in
      (true, mem, take (List.length l - 1) mem)
  | None => (false, l, l)
  end.

Definition deleteMftTermM : M (bool * list searchTerms) := fun st =>
  let '(found, mem, l) := deleteMftTerm (searchTerms_mem st) in
  ({| exportList_mem := exportList_mem st;
      searchTerms_mem := mem;
      openVolumes := openVolumes st;
      trace := trace st |}, Ok (found, l)).

Definition walk (volumeHandler : VolumeHandler) (terms : list searchTerms)
    : M (possibleMatches * DirectoryTree) :=
  emit (EvWalk volumeHandler terms);;
  orWrap (findPossibleMatches w volumeHandler terms) "findPossibleMatches() failed: ".

Definition closePipe : M unit :=
  emit EvPipeClose;;
  match pipeWriter_Close w with
  | Some err => fail (wrapError "failed to close writer pipe: " err)
  | None => mret tt
  end.

(** The entry that the last loop of [getFiles] sends for [file]. *)
Definition readerFor (volumeHandler : VolumeHandler) (file : foundFile) : reader :=
  match apiFileReader w file with
  | Err _ => rawFileReader volumeHandler file
  | Ok h => fileR h
  end.

Fixpoint sendFoundFiles (volumeHandler : VolumeHandler) (foundFiles : list foundFile)
    : M unit :=
  match foundFiles with
  | [] => mret tt
  | file :: rest =>
      emit (EvSend {| fr_fullPath := fullPath file;
                      fr_reader := readerFor volumeHandler file |});;
      sendFoundFiles volumeHandler rest
  end.

(** [getFiles].  The test of [err] that follows [confirmFoundFiles] in the
    source cannot fire, [err] being nil there, and has no counterpart
    here; the error of [apiFileReader] is a variable of the loop body. *)
Definition getFiles (volumeHandler : VolumeHandler) : M unit :=
  emit (EvGo (VolumeLetter volumeHandler));;
  mftRecord0 ← orWrap (parseMFTRecord0 w volumeHandler)
    ("parseMFTRecord0() failed to parse mft record 0 from the volume "
       +:+ VolumeLetter volumeHandler +:+ ": ");
  emit (EvSeek (Handle volumeHandler) (MftByteOffset (Vbr volumeHandler)));;
  let foundFile := {| dataRuns := DataRuns mftRecord0; fullPath := "$mft" |} in
  let mftReader := rawFileReader volumeHandler foundFile in
  '(areWeCopyingTheMFT, listOfSearchKeywords) ← deleteMftTermM;
  '(possibleMatches, directoryTree) ←
    (if areWeCopyingTheMFT : bool then
       emit (EvSend {| fr_fullPath := VolumeLetter volumeHandler +:+ "__$mft";
                       fr_reader := pipeR |});;
       found ← walk (setMftReader volumeHandler (teeR mftReader)) listOfSearchKeywords;
       closePipe;;
       mret found
     else
       walk (setMftReader volumeHandler mftReader) listOfSearchKeywords);
  let foundFiles :=
    confirmFoundFiles w listOfSearchKeywords possibleMatches directoryTree in
  sendFoundFiles volumeHandler foundFiles;;
  emit EvCloseChan;;
  emit EvWait.

(** The loop of [Collect] over the volumes of interest. *)
Fixpoint forVolumes (volumesOfInterest : list string) : M unit :=
  match volumesOfInterest with
  | [] => mret tt
  | volumeLetter :: rest =>
      volumeHandler ← wrap
        ("GetVolumeHandler() failed to get a handle to the volume "
           +:+ volumeLetter +:+ ": ")
        (GetVolumeHandler volumeLetter);
      wrap "getFiles() failed to get files: " (getFiles volumeHandler);;
      forVolumes rest
  end.

Definition CollectM : M unit :=
  resolveEnvM;;
  st ← get;
  volumesOfInterest ← orWrap (identifyVolumesOfInterest (exportList_mem st))
    "identifyVolumesOfInterest() returned an error: ";
  searchTerms ← orWrap (setupSearchTerms w (exportList_mem st))
    "setupSearchTerms() returned the following error: ";
  setSearchTerms searchTerms;;
  forVolumes volumesOfInterest.

(** [Collect]: the state when it returns (the caller's view of
    [exportList], the device descriptors still open, the trace) and its
    error. *)
Definition Collect (exportList : list FileToExport) : State * result unit :=
  CollectM (initState exportList).

End Pipeline.

(** ** The contents that reach the sink *)

(** The bytes behind the descriptors: the device of a volume handle by
    offset, and the content of a file opened by path. *)
Record Disk : Type := mkDisk {
  deviceByte : File -> Z -> byte;
  fileBytes : File -> list byte;
}.

Fixpoint readAt (d : Disk) (h : File) (offset : Z) (n : nat) : list byte :=
  match n with
  | O => []
  | S n' => deviceByte d h offset :: readAt d h (offset + 1) n'
  end.

(** Modelled from the spec: the Extent Reader behind [rawFileReader],
    whose body is not among the sources.  For each run in order it seeks
    to run start times cluster size and yields run length times cluster
    size bytes; a sparse run yields as many zero bytes without touching
    the device. *)
Definition ReadExtents (d : Disk) (h : File) (clusterSize : Z)
    (runs : list DataRun) : list byte :=
  flat_map (fun run =>
    let n := Z.to_nat (runLength run * clusterSize) in
    match runStart run with
    | Some start => readAt d h (start * clusterSize) n
    | None => repeat "000"%byte n
    end) runs.

(** Modelled from the spec: the bytes a reader yields when read to its
    end, the readers being built by code that is not among the sources.
    The read half of a pipe has no content of its own; see [teed]. *)
Fixpoint content (d : Disk) (r : reader) : list byte :=
  match r with
  | fileR h => fileBytes d h
  | rawR h vbr f => ReadExtents d h (BytesPerCluster vbr) (dataRuns f)
  | teeR src => content d src
  | pipeR => []
  end.

(** Modelled from the spec: the tee of the MFT stream.  The directory
    walk that follows the send of the pipe reads its tee reader once to
    the end, every byte it reads is forked into the pipe, and the pipe
    delivers its end of stream when the walker closes it.  [None] stands
    for a stream that never ends: the walk failed and the pipe was left
    open. *)
Definition teed (d : Disk) (rest : list Event) : option (list byte) :=
  match rest with
  | EvWalk v _ :: EvPipeClose :: _ =>
      match mftReader v with
      | Some (teeR src) => Some (content d src)
      | _ => None
      end
  | _ => None
  end.

(** Modelled from the spec: the consumer [resultWriter.ResultWriter],
    whose implementations are not among the sources.  It persists each
    entry received from the channel under its name, in the order sent. *)
Fixpoint sink (d : Disk) (tr : list Event) : list (string * option (list byte)) :=
  match tr with
  | [] => []
  | EvSend fr :: rest =>
      (fr_fullPath fr,
       match fr_reader fr with
       | pipeR => teed d rest
       | r => Some (content d r)
       end) :: sink d rest
  | _ :: rest => sink d rest
  end.

(** Modelled from the spec: [setupSearchTerms], whose body is not among
    the sources.  A search term is derived from each request after
    expansion and carries its filename-matching piece; names are matched
    without regard to case, the request for [$MFT] being the term
    [$mft]. *)
Definition spec_setupSearchTerms (toLower : string -> string)
    (exportList : list FileToExport) : result (list searchTerms) :=
  Ok (map (fun e => {| fullPathString := toLower (FullPath e);
                       fileNameString := toLower (FileName e) |}) exportList).

(** ** A test double of the collaborators

    Volumes [c], [d] and [e] exist: [c] is sound, the boot record of [d]
    does not parse, and record 0 of the MFT of [e] is corrupt.  Every
    literal request is found at its path; the SYSTEM hive is locked. *)

Definition asciiIsLetter (r : Z) : bool :=
  ((65 <=? r) && (r <=? 90)) || ((97 <=? r) && (r <=? 122)).

Definition labExpandString (s : string) : string * option error :=
  if hasNUL s then (EmptyString, Some (errorString "invalid argument"))
  else if String.prefix "%SYSTEMDRIVE%" s
       then ("C:" +:+ substring 13 (String.length s - 13) s, None)
       else (s, None).

Definition labGetHandle (volumeLetter : string) : result File :=
  if decide (volumeLetter = "c") then Ok 3
  else if decide (volumeLetter = "d") then Ok 4
  else if decide (volumeLetter = "e") then Ok 5
  else Err (errorString "The system cannot find the path specified.").

Definition labRead (h : File) (n : nat) : result (list byte) :=
  if h =? 4 then Ok (repeat "000"%byte n)
  else Ok (take n ("235"%byte :: "082"%byte :: "144"%byte :: repeat "000"%byte n)).

Definition labGeometry : VolumeBootRecord :=
  {| BytesPerSector := 512; SectorsPerCluster := 8;
     BytesPerCluster := 4096; MftByteOffset := 409600 |}.

Definition labParse (b : list byte) : result VolumeBootRecord :=
  match b with
  | "235"%byte :: _ => Ok labGeometry
  | _ => Err (errorString "unsupported boot signature")
  end.

Definition labRecord0 (v : VolumeHandler) : result MasterFileTableRecord :=
  if Handle v =? 5 then Err (errorString "corrupt record")
  else Ok {| DataRuns := [ {| runLength := 4; runStart := Some 100 |} ] |}.

Definition labWalk (v : VolumeHandler) (terms : list searchTerms)
    : result (possibleMatches * DirectoryTree) :=
  Ok (map (fun t => (0, fileNameString t)) terms,
      map (fun t => (0, fullPathString t)) terms).

Definition labConfirm (terms : list searchTerms) (pm : possibleMatches)
    (dt : DirectoryTree) : list foundFile :=
  map (fun t => {| dataRuns := [ {| runLength := 2; runStart := Some 500 |} ];
                   fullPath := fullPathString t |}) terms.

Definition labApi (f : foundFile) : result File :=
  if decide (fullPath f = "c:\windows\system32\config\system")
  then Err (errorString "The process cannot access the file because it is being used by another process.")
  else Ok 9.

Definition labWorld : World :=
  {| registry_ExpandString := labExpandString;
     strings_ToLower := asciiToLower;
     unicode_IsLetter := asciiIsLetter;
     handler_GetHandle := labGetHandle;
     File_Read := labRead;
     vbr_Parse := labParse;
     setupSearchTerms := spec_setupSearchTerms asciiToLower;
     parseMFTRecord0 := labRecord0;
     findPossibleMatches := labWalk;
     confirmFoundFiles := labConfirm;
     apiFileReader := labApi;
     pipeWriter_Close := None |}.

Definition labDisk : Disk :=
  {| deviceByte := fun _ offset => if Z.even offset then "001"%byte else "000"%byte;
     fileBytes := fun _ => [ "077"%byte; "090"%byte ] |}.

(** The requests used below. *)
Definition reqMft : FileToExport :=
  {| FullPath := "C:\$MFT"; IsFullPathRegex := false;
     FileName := "$MFT"; IsFileNameRegex := false |}.

Definition reqSystem : FileToExport :=
  {| FullPath := "%SYSTEMDRIVE%\Windows\System32\config\SYSTEM";
     IsFullPathRegex := false;
     FileName := "SYSTEM"; IsFileNameRegex := false |}.

Definition reqSoftware : FileToExport :=
  {| FullPath := "c:\Windows\System32\config\SOFTWARE";
     IsFullPathRegex := false;
     FileName := "SOFTWARE"; IsFileNameRegex := false |}.

Definition reqOn (volume : string) : FileToExport :=
  {| FullPath := volume +:+ ":\pagefile.sys"; IsFullPathRegex := false;
     FileName := "pagefile.sys"; IsFileNameRegex := false |}.

(** A request whose path holds a NUL byte, which the expansion refuses. *)
Definition reqBad : FileToExport :=
  {| FullPath := String (ascii_of_nat 0) "C:\boot.ini"; IsFullPathRegex := false;
     FileName := "boot.ini"; IsFileNameRegex := false |}.

(** A second file named [$MFT] on volume [c]. *)
Definition reqMftCopy : FileToExport :=
  {| FullPath := "C:\Backup\$MFT"; IsFullPathRegex := false;
     FileName := "$MFT"; IsFileNameRegex := false |}.

(** * The vocabulary of the properties *)

(** ** Requests and their expansion *)

(** The fields of a request that [resolveEnv] does not assign. *)
Definition otherFields (e : FileToExport) : bool * string * bool :=
  (IsFullPathRegex e, FileName e, IsFileNameRegex e).

Definition expansionFails (w : World) (e : FileToExport) : Prop :=
  (registry_ExpandString w (FullPath e)).2 ≠ None.

Definition expanded (w : World) (e : FileToExport) : FileToExport :=
  setFullPath e (registry_ExpandString w (FullPath e)).1.

(** The number of entries that the loop of [resolveEnv] assigns: all of
    them, or those up to and including the first whose expansion
    fails. *)
Fixpoint reached (w : World) (exportList : list FileToExport) : nat :=
  match exportList with
  | [] => 0
  | e :: rest =>
      match (registry_ExpandString w (FullPath e)).2 with
      | Some _ => 1
      | None => S (reached w rest)
      end
  end.

(** ** Volumes *)

(** The volume that [identifyVolumesOfInterest] reads off a request. *)
Definition volumeOf (w : World) (e : FileToExport) : string :=
  re_FindString (strings_ToLower w (FullPath e)).

(** The path of the request starts with one ASCII letter and a colon. *)
Definition startsWithDrive (e : FileToExport) : Prop :=
  exists d rest, FullPath e = String d (String ":" rest) /\ isASCIILetter d = true.

(** The first byte of the path, in lower case, as a string. *)
Definition driveOf (e : FileToExport) : string :=
  match FullPath e with
  | EmptyString => EmptyString
  | String d _ => String (lowerASCII d) EmptyString
  end.

Definition openFails (w : World) (volumeLetter : string) : bool :=
  isErr (handler_GetHandle w volumeLetter).

(** The handle opens, but its boot record cannot be read or parsed. *)
Definition bootRecordFails (w : World) (volumeLetter : string) : bool :=
  match handler_GetHandle w volumeLetter with
  | Err _ => false
  | Ok h =>
      match File_Read w h volumeBootRecordSize with
      | Err _ => true
      | Ok b => isErr (vbr_Parse w b)
      end
  end.

(** One turn of the loop of [Collect]. *)
Definition oneVolume (w : World) (volumeLetter : string) : M unit :=
  volumeHandler ← wrap
    ("GetVolumeHandler() failed to get a handle to the volume "
       +:+ volumeLetter +:+ ": ")
    (GetVolumeHandler w volumeLetter);
  wrap "getFiles() failed to get files: " (getFiles w volumeHandler).

(** ** States and traces *)

(** [st] with further descriptors opened and further events recorded. *)
Definition extend (st : State) (hs : list File) (evs : list Event) : State :=
  {| exportList_mem := exportList_mem st;
     searchTerms_mem := searchTerms_mem st;
     openVolumes := openVolumes st ++ hs;
     trace := trace st ++ evs |}.

Definition quietEvent (ev : Event) : Prop :=
  match ev with EvGetHandle _ => False | _ => True end.

(** A computation is quiet when it leaves the export list and the open
    descriptors as they are and records no call of [GetHandle]. *)
Definition quiet {A} (m : M A) : Prop :=
  forall st,
    exportList_mem (m st).1 = exportList_mem st /\
    openVolumes (m st).1 = openVolumes st /\
    exists evs, trace (m st).1 = trace st ++ evs /\ Forall quietEvent evs.

(** Every descriptor returned by a recorded call of [GetHandle] is held
    open. *)
Definition heldOpen (w : World) (st : State) : Prop :=
  forall v h, EvGetHandle v ∈ trace st -> handler_GetHandle w v = Ok h ->
              h ∈ openVolumes st.

(** The entries sent on the channel in a run. *)
Definition sent (tr : list Event) : list fileReader :=
  flat_map (fun ev => match ev with EvSend fr => [fr] | _ => [] end) tr.

(** The lists of terms handed to the walks of a run. *)
Definition walkedTerms (tr : list Event) : list (list searchTerms) :=
  flat_map (fun ev => match ev with EvWalk _ terms => [terms] | _ => [] end) tr.

(** ** The run of [getFiles] *)

Definition notMft (t : searchTerms) : Prop := fileNameString t ≠ "$mft".

(** The entry sent for a confirmed file, and the entry sent for the copy
    of the MFT. *)
Definition entryFor (w : World) (v : VolumeHandler) (file : foundFile)
    : fileReader :=
  {| fr_fullPath := fullPath file; fr_reader := readerFor w v file |}.

Definition mftEntry (v : VolumeHandler) : fileReader :=
  {| fr_fullPath := VolumeLetter v +:+ "__$mft"; fr_reader := pipeR |}.

(** The reader over the MFT, the volume handler handed to the walk, and
    the events up to the end of the walk. *)
Definition mftReaderOf (v : VolumeHandler) (mftRecord0 : MasterFileTableRecord)
    : reader :=
  rawFileReader v {| dataRuns := DataRuns mftRecord0; fullPath := "$mft" |}.

Definition walkHandler (v : VolumeHandler) (mftRecord0 : MasterFileTableRecord)
    (areWeCopyingTheMFT : bool) : VolumeHandler :=
  setMftReader v (if areWeCopyingTheMFT
                  then teeR (mftReaderOf v mftRecord0)
                  else mftReaderOf v mftRecord0).

Definition walkEvents (v : VolumeHandler) (mftRecord0 : MasterFileTableRecord)
    (areWeCopyingTheMFT : bool) (terms : list searchTerms) : list Event :=
  [EvGo (VolumeLetter v); EvSeek (Handle v) (MftByteOffset (Vbr v))] ++
  (if areWeCopyingTheMFT
   then [EvSend (mftEntry v);
         EvWalk (walkHandler v mftRecord0 true) terms; EvPipeClose]
   else [EvWalk (walkHandler v mftRecord0 false) terms]).

(** ** The scenario of the export of the MFT *)

(** The request for [C:\$MFT] names no environment variable, volume [c]
    opens with a cluster size of 4096, the run list of its MFT is the
    single run of 4 clusters from cluster 100, and with the search terms
    emptied the walk succeeds and confirms no file. *)
Definition mftRun : DataRun := {| runLength := 4; runStart := Some 100 |}.

Definition MftScenario (w : World) : Prop :=
  registry_ExpandString w "C:\$MFT" = ("C:\$MFT", None) /\
  strings_ToLower w "C:\$MFT" = "c:\$mft" /\
  unicode_IsLetter w (runeOfByte "c") = true /\
  setupSearchTerms w [reqMft]
    = spec_setupSearchTerms asciiToLower [reqMft] /\
  (exists h b vbr,
     handler_GetHandle w "c" = Ok h /\
     File_Read w h volumeBootRecordSize = Ok b /\
     vbr_Parse w b = Ok vbr /\
     BytesPerCluster vbr = 4096 /\
     parseMFTRecord0 w {| Handle := h; VolumeLetter := "c"; Vbr := vbr;
                          mftReader := None; lastReadVolumeOffset := 0 |}
       = Ok {| DataRuns := [mftRun] |}) /\
  (forall v, exists pm dt,
     findPossibleMatches w v [] = Ok (pm, dt) /\
     confirmFoundFiles w [] pm dt = []) /\
  pipeWriter_Close w = None.

(** * The command: the requests that [main] builds *)

(** [strings.Contains]. *)
Fixpoint strings_Contains (s substr : string) : bool :=
  match s with
  | EmptyString => String.prefix substr EmptyString
  | String _ s' => String.prefix substr s || strings_Contains s' substr
  end.

Definition literal (fullPath fileName : string) : FileToExport :=
  {| FullPath := fullPath; IsFullPathRegex := false;
     FileName := fileName; IsFileNameRegex := false |}.

(** The requests of [main], as written in its two branches. *)
Definition wantMft : FileToExport :=
  literal "%SYSTEMDRIVE%:\$MFT" "$MFT".

Definition wantSystem : FileToExport :=
  literal "%SYSTEMDRIVE%:\Windows\System32\config\SYSTEM" "SYSTEM".

Definition wantSoftware : FileToExport :=
  literal "%SYSTEMDRIVE%:\Windows\System32\config\SOFTWARE" "SOFTWARE".

(** The event logs in the branch of [a] ... *)
Definition wantEvtxOfAll : FileToExport :=
  {| FullPath := "%SYSTEMDRIVE%:\\Windows\\System32\\winevt\\Logs\\.*\.evtx$";
     IsFullPathRegex := true;
     FileName := ".*\.evtx$"; IsFileNameRegex := true |}.

(** ... and in the branch of [e]. *)
Definition wantEvtx : FileToExport :=
  {| FullPath := "%SYSTEMDRIVE%:\\Windows\\System32\\winevt\\Logs\\.*\\.evtx$";
     IsFullPathRegex := true;
     FileName := ".*\\.evtx$"; IsFileNameRegex := true |}.

Definition wantNtuser : FileToExport :=
  {| FullPath := "%SYSTEMDRIVE%:\\users\\([^\\]+)\\ntuser.dat";
     IsFullPathRegex := true;
     FileName := "ntuser.dat"; IsFileNameRegex := false |}.

Definition wantUsrclass : FileToExport :=
  {| FullPath := "%SYSTEMDRIVE%:\\Users\\([^\\]+)\\AppData\\Local\\Microsoft\\Windows\\usrclass.dat";
     IsFullPathRegex := true;
     FileName := "usrclass.dat"; IsFileNameRegex := false |}.

Definition wantWebCache : FileToExport :=
  {| FullPath := "%SYSTEMDRIVE%:\\Users\\([^\\]+)\\AppData\\Local\\Microsoft\\Windows\\WebCache\\WebCacheV01.dat";
     IsFullPathRegex := true;
     FileName := "WebCacheV01.dat"; IsFileNameRegex := false |}.

(** The export list that [main] builds from [opts.DataTypesToCollect]. *)
Definition gatherList (DataTypesToCollect : string) : list FileToExport :=
  if strings_Contains DataTypesToCollect "a" then
    [wantMft; wantSystem; wantSoftware; wantEvtxOfAll;
     wantNtuser; wantUsrclass; wantWebCache]
  else
    (if strings_Contains DataTypesToCollect "m" then [wantMft] else []) ++
    (if strings_Contains DataTypesToCollect "r"
     then [wantSystem; wantSoftware] else []) ++
    (if strings_Contains DataTypesToCollect "u"
     then [wantNtuser; wantUsrclass] else []) ++
    (if strings_Contains DataTypesToCollect "e" then [wantEvtx] else []) ++
    (if strings_Contains DataTypesToCollect "w" then [wantWebCache] else []).

(** The letters that [main] looks for. *)
Definition gatherLetters : list ascii :=
  ["a"; "m"; "r"; "u"; "e"; "w"]%char.

(** [s] ends with [suffix]. *)
Definition endsWith (s suffix : string) : bool :=
  String.eqb
    (substring (String.length s - String.length suffix) (String.length suffix) s)
    suffix
  && (String.length suffix <=? String.length s)%nat.

(** The path of a request starts with the placeholder of the system
    drive, and it ends with its file name as last component. *)
Definition onSystemDrive (e : FileToExport) : bool :=
  String.prefix "%SYSTEMDRIVE%:\" (FullPath e).

Definition namesItsFile (e : FileToExport) : bool :=
  endsWith (FullPath e) ("\" +:+ FileName e).

(** What follows the placeholder in a path that starts with it. *)
Definition afterPlaceholder (e : FileToExport) : string :=
  substring 13 (String.length (FullPath e) - 13) (FullPath e).

(** The placeholder of the system drive expands to [d:] in the paths
    that [main] builds. *)
Definition systemDriveIs (w : World) (d : ascii) : Prop :=
  forall s e, e ∈ gatherList s ->
    registry_ExpandString w (FullPath e)
    = (String d (String ":" (afterPlaceholder e)), None).

(** * Further vocabulary *)

(** The elements of a list in the order of their first occurrence. *)
Fixpoint firstOccurrences (l : list string) : list string :=
  match l with
  | [] => []
  | x :: rest => x :: filter (fun y => y ≠ x) (firstOccurrences rest)
  end.

(** [st] with further events recorded, and with another backing array of
    the search terms. *)
Definition logged (st : State) (evs : list Event) : State :=
  {| exportList_mem := exportList_mem st;
     searchTerms_mem := searchTerms_mem st;
     openVolumes := openVolumes st;
     trace := trace st ++ evs |}.

Definition withTerms (st : State) (mem : list searchTerms) : State :=
  {| exportList_mem := exportList_mem st;
     searchTerms_mem := mem;
     openVolumes := openVolumes st;
     trace := trace st |}.

(** The volumes for which [GetHandle] was called in a run, in order. *)
Definition openedVolumes (tr : list Event) : list string :=
  flat_map (fun ev => match ev with EvGetHandle v => [v] | _ => [] end) tr.

(** The starts of the consumer, the closings of the channel and the
    waits of a run, in order. *)
Definition syncEvents (tr : list Event) : list Event :=
  flat_map (fun ev => match ev with
                      | EvGo _ | EvCloseChan | EvWait => [ev]
                      | _ => []
                      end) tr.

(** The entries of a run that carry the read half of a pipe: the copies
    of the MFT. *)
Definition mftCopies (tr : list Event) : list fileReader :=
  flat_map (fun ev => match ev with
                      | EvSend {| fr_fullPath := p; fr_reader := pipeR |} =>
                          [ {| fr_fullPath := p; fr_reader := pipeR |} ]
                      | _ => []
                      end) tr.



(** The run of [getFiles], case by case: record 0 does not parse; the
    walk fails; the pipe of the copy of the MFT does not close; all
    succeed. *)
Definition getFilesRun (w : World) (v : VolumeHandler) (st : State)
    : State * result unit :=
  let copy := (deleteMftTerm (searchTerms_mem st)).1.1 in
  let mem := (deleteMftTerm (searchTerms_mem st)).1.2 in
  let terms := (deleteMftTerm (searchTerms_mem st)).2 in
  match parseMFTRecord0 w v with
  | Err e =>
      (logged st [EvGo (VolumeLetter v)],
       Err (wrapError
              ("parseMFTRecord0() failed to parse mft record 0 from the volume "
                 +:+ VolumeLetter v +:+ ": ") e))
  | Ok mftRecord0 =>
      let v' := walkHandler v mftRecord0 copy in
      let upToWalk :=
        [EvGo (VolumeLetter v); EvSeek (Handle v) (MftByteOffset (Vbr v))]
        ++ (if copy then [EvSend (mftEntry v)] else [])
        ++ [EvWalk v' terms] in
      match findPossibleMatches w v' terms with
      | Err e =>
          (logged (withTerms st mem) upToWalk,
           Err (wrapError "findPossibleMatches() failed: " e))
      | Ok (pm, dt) =>
          match (if copy then pipeWriter_Close w else None) with
          | Some e =>
              (logged (withTerms st mem) (upToWalk ++ [EvPipeClose]),
               Err (wrapError "failed to close writer pipe: " e))
          | None =>
              (logged (withTerms st mem)
                 (upToWalk ++ (if copy then [EvPipeClose] else [])
                    ++ map (fun file => EvSend (entryFor w v file))
                         (confirmFoundFiles w terms pm dt)
                    ++ [EvCloseChan; EvWait]),
               Ok tt)
          end
      end
  end.

(** The descriptor that [GetHandle] returns for a volume, if it returns
    one. *)
Definition descriptorOf (w : World) (volumeLetter : string) : list File :=
  match handler_GetHandle w volumeLetter with Ok h => [h] | Err _ => [] end.

(** The events of a consumer that is started, sees its channel closed
    and is waited for. *)
Definition served (volumeLetter : string) : list Event :=
  [EvGo volumeLetter; EvCloseChan; EvWait].

(** The entry of the copy of the MFT of a volume. *)
Definition mftCopyOf (volumeLetter : string) : fileReader :=
  {| fr_fullPath := volumeLetter +:+ "__$mft"; fr_reader := pipeR |}.

Definition isMft (t : searchTerms) : Prop := fileNameString t = "$mft".

#[global] Instance isMft_dec (t : searchTerms) : Decision (isMft t) :=
  decide (fileNameString t = "$mft").

(** From [st] to [st'] the backing array of the search terms became
    [mem], the copies [copies] of the MFT were sent and the walks were
    handed [walks]. *)
Definition walkedWith (st st' : State) (mem : list searchTerms)
    (copies : list fileReader) (walks : list (list searchTerms)) : Prop :=
  searchTerms_mem st' = mem /\
  mftCopies (trace st') = mftCopies (trace st) ++ copies /\
  walkedTerms (trace st') = walkedTerms (trace st) ++ walks.

(** A second test double: as the first, with every volume sound. *)
Definition soundRead (h : File) (n : nat) : result (list byte) :=
  Ok (take n ("235"%byte :: "082"%byte :: "144"%byte :: repeat "000"%byte n)).

Definition soundRecord0 (v : VolumeHandler) : result MasterFileTableRecord :=
  Ok {| DataRuns := [mftRun] |}.

Definition soundWorld : World :=
  {| registry_ExpandString := labExpandString;
     strings_ToLower := asciiToLower;
     unicode_IsLetter := asciiIsLetter;
     handler_GetHandle := labGetHandle;
     File_Read := soundRead;
     vbr_Parse := labParse;
     setupSearchTerms := spec_setupSearchTerms asciiToLower;
     parseMFTRecord0 := soundRecord0;
     findPossibleMatches := labWalk;
     confirmFoundFiles := labConfirm;
     apiFileReader := labApi;
     pipeWriter_Close := None |}.

(** * Properties *)

(** ** The model on small inputs *)

Example FindString_drive : re_FindString "c:\$mft" = "c".
Proof. reflexivity. Qed.

Example FindString_leading_colons : re_FindString "::x:y" = "x".
Proof. reflexivity. Qed.

Example FindString_none : re_FindString ":::" = "".
Proof. reflexivity. Qed.

Example isLetter_empty :
  isLetter labWorld "" = Err (errorString "isLetter() received a null string").
Proof. reflexivity. Qed.

Example isLetter_digit : isLetter labWorld "1" = Ok false.
Proof. reflexivity. Qed.

Example isLetter_two_bytes : isErr (isLetter labWorld "ab") = true.
Proof. reflexivity. Qed.

Example identifyVolumes_no_drive :
  identifyVolumesOfInterest labWorld [reqOn "1"]
  = Err (errorString
           "isLetter() indicated that the full path string 1:\pagefile.sys does not start with a letter").
Proof. reflexivity. Qed.

Example identifyVolumes_path_without_colon :
  isErr (identifyVolumesOfInterest labWorld
           [ {| FullPath := "windows\system32"; IsFullPathRegex := false;
                FileName := "system32"; IsFileNameRegex := false |} ]) = true.
Proof. reflexivity. Qed.

(** The loop of [resolveEnv] stops at the entry whose expansion fails:
    the entry before it is expanded, the entry itself holds the string
    returned with the error, the entry behind it is untouched. *)
Example resolveEnv_stops :
  map FullPath (resolveEnv labWorld [reqSystem; reqBad; reqSystem]).1
  = ["C:\Windows\System32\config\SYSTEM"; "";
     "%SYSTEMDRIVE%\Windows\System32\config\SYSTEM"].
Proof. reflexivity. Qed.

Example deleteMftTerm_single :
  deleteMftTerm [ {| fullPathString := "c:\$mft"; fileNameString := "$mft" |} ]
  = (true, [ {| fullPathString := "c:\$mft"; fileNameString := "$mft" |} ], []).
Proof. reflexivity. Qed.

Example GetHandle_path :
  lpFileName (GetHandle_call "c") = Some "\\.\c:".
Proof. reflexivity. Qed.

(** ** Running the monad *)

Lemma run_bind {A B} (m : M A) (f : A -> M B) (st : State) :
  (m ≫= f) st =
  match m st with
  | (st', Ok a) => f a st'
  | (st', Err e) => (st', Err e)
  end.
Proof. reflexivity. Qed.

(** Unfolds the primitive steps of the monad. *)
Ltac runM :=
  unfold mbind, M_bind, mret, M_ret, orWrap, wrap, emit, opened, fail, get,
         setSearchTerms in *;
  simpl in *.

(** ** [resolveEnv] *)

Section ResolveEnv.

Context (w : World).

Lemma resolveEnv_length l : List.length (resolveEnv w l).1 = List.length l.
Proof.
  induction l as [|e rest IH]; [reflexivity|].
  simpl. destruct (registry_ExpandString w (FullPath e)) as [s [err|]]; simpl.
  - reflexivity.
  - destruct (resolveEnv w rest) as [rest' r]. simpl in *. by rewrite IH.
Qed.

Lemma resolveEnv_frame l : map otherFields (resolveEnv w l).1 = map otherFields l.
Proof.
  induction l as [|e rest IH]; [reflexivity|].
  simpl. destruct (registry_ExpandString w (FullPath e)) as [s [err|]]; simpl.
  - reflexivity.
  - destruct (resolveEnv w rest) as [rest' r]. simpl in *. by rewrite IH.
Qed.

Lemma resolveEnv_ok l :
  (resolveEnv w l).2 = None -> (resolveEnv w l).1 = map (expanded w) l.
Proof.
  induction l as [|e rest IH]; [reflexivity|].
  simpl. unfold expanded at 1.
  destruct (registry_ExpandString w (FullPath e)) as [s [err|]]; simpl.
  - discriminate.
  - destruct (resolveEnv w rest) as [rest' r]. simpl in *.
    intros ->. by rewrite IH.
Qed.

Lemma resolveEnv_fails l :
  (resolveEnv w l).2 ≠ None <-> Exists (expansionFails w) l.
Proof.
  induction l as [|e rest IH]; simpl.
  - split; [congruence | by inversion 1].
  - rewrite Exists_cons. unfold expansionFails at 1.
    destruct (registry_ExpandString w (FullPath e)) as [s [err|]]; simpl.
    + split; [by left | done].
    + destruct (resolveEnv w rest) as [rest' r]. simpl in *.
      rewrite IH. split; [by right | by intros [?|?]].
Qed.

End ResolveEnv.

(** ** Computations that open nothing *)

Lemma quiet_ret {A} (a : A) : quiet (mret a : M A).
Proof. intros st. repeat split. exists []. by rewrite app_nil_r. Qed.

Lemma quiet_fail {A} (e : error) : quiet (fail e : M A).
Proof. intros st. repeat split. exists []. by rewrite app_nil_r. Qed.

Lemma quiet_emit ev : quietEvent ev -> quiet (emit ev).
Proof. intros H st. repeat split. exists [ev]. split; [done | by constructor]. Qed.

Lemma quiet_orWrap {A} (r : result A) msg : quiet (orWrap r msg).
Proof.
  intros st. unfold orWrap. destruct r; repeat split; exists []; by rewrite app_nil_r.
Qed.

Lemma quiet_bind {A B} (m : M A) (f : A -> M B) :
  quiet m -> (forall a, quiet (f a)) -> quiet (m ≫= f).
Proof.
  intros Hm Hf st. rewrite run_bind.
  destruct (Hm st) as (He & Ho & evs & Ht & Hq).
  destruct (m st) as [st1 [a|e]]; simpl in *.
  - destruct (Hf a st1) as (He' & Ho' & evs' & Ht' & Hq').
    repeat split; [congruence | congruence |].
    exists (evs ++ evs'). split; [by rewrite Ht', Ht, app_assoc | by apply Forall_app].
  - repeat split; [done | done |]. by exists evs.
Qed.

Lemma quiet_wrap {A} msg (m : M A) : quiet m -> quiet (wrap msg m).
Proof.
  intros Hm st. unfold wrap. specialize (Hm st).
  by destruct (m st) as [st1 [a|e]].
Qed.

Lemma quiet_deleteMftTermM : quiet deleteMftTermM.
Proof.
  intros st. unfold deleteMftTermM.
  destruct (deleteMftTerm (searchTerms_mem st)) as [[found mem] l]. simpl.
  repeat split. exists []. by rewrite app_nil_r.
Qed.

Create HintDb quiet.

#[local] Hint Resolve quiet_ret quiet_fail quiet_orWrap quiet_deleteMftTermM : quiet.
#[local] Hint Extern 2 (quiet (emit _)) => apply quiet_emit; exact I : quiet.
#[local] Hint Extern 3 (quiet (_ ≫= _)) => apply quiet_bind; [|intros] : quiet.
#[local] Hint Extern 3 (quiet (wrap _ _)) => apply quiet_wrap : quiet.

Section Quiet.

Context (w : World).

Lemma quiet_walk v terms : quiet (walk w v terms).
Proof. unfold walk. auto with quiet. Qed.

Lemma quiet_closePipe : quiet (closePipe w).
Proof. unfold closePipe. destruct (pipeWriter_Close w); auto with quiet. Qed.

Lemma quiet_sendFoundFiles v files : quiet (sendFoundFiles w v files).
Proof. induction files; simpl; auto with quiet. Qed.

Lemma quiet_getFiles v : quiet (getFiles w v).
Proof.
  pose proof (quiet_walk) as Hw. pose proof quiet_closePipe as Hc.
  pose proof quiet_sendFoundFiles as Hs.
  unfold getFiles.
  repeat first
    [ apply Hw | apply Hc | apply Hs
    | match goal with
      | |- quiet (match ?x with (_, _) => _ end) => destruct x
      | |- quiet (if ?b then _ else _) => destruct b
      end
    | apply quiet_orWrap
    | apply quiet_emit; exact I
    | apply quiet_deleteMftTermM
    | apply quiet_ret
    | apply quiet_bind; [|intros] ].
Qed.

End Quiet.

(** ** [GetVolumeHandler] and the loop over the volumes *)

Section Volumes.

Context (w : World).

Lemma GetVolumeHandler_state v st :
  (GetVolumeHandler w v st).1 =
  extend st (match handler_GetHandle w v with Ok h => [h] | Err _ => [] end)
            [EvGetHandle v].
Proof.
  unfold GetVolumeHandler, extend. runM.
  destruct (handler_GetHandle w v) as [h|e]; simpl.
  - destruct (File_Read w h volumeBootRecordSize) as [b|e]; simpl; [|done].
    by destruct (vbr_Parse w b).
  - by rewrite app_nil_r.
Qed.

Lemma GetVolumeHandler_fails v st :
  openFails w v || bootRecordFails w v = true ->
  isErr (GetVolumeHandler w v st).2 = true.
Proof.
  unfold openFails, bootRecordFails, GetVolumeHandler. runM.
  destruct (handler_GetHandle w v) as [h|e]; simpl; [|done].
  destruct (File_Read w h volumeBootRecordSize) as [b|e]; simpl; [|done].
  by destruct (vbr_Parse w b).
Qed.

Lemma GetVolumeHandler_ok v st h b vbr :
  handler_GetHandle w v = Ok h ->
  File_Read w h volumeBootRecordSize = Ok b ->
  vbr_Parse w b = Ok vbr ->
  GetVolumeHandler w v st =
  (extend st [h] [EvGetHandle v],
   Ok {| Handle := h; VolumeLetter := v; Vbr := vbr;
         mftReader := None; lastReadVolumeOffset := 0 |}).
Proof.
  intros Hopen Hread Hparse. unfold GetVolumeHandler, extend. runM.
  rewrite Hopen. simpl. rewrite Hread. simpl. by rewrite Hparse.
Qed.

Lemma forVolumes_cons v rest st :
  forVolumes w (v :: rest) st =
  match oneVolume w v st with
  | (st', Ok _) => forVolumes w rest st'
  | (st', Err e) => (st', Err e)
  end.
Proof.
  simpl. unfold oneVolume. rewrite !run_bind.
  destruct (wrap _ (GetVolumeHandler w v) st) as [st1 [vh|e]]; [|done].
  rewrite !run_bind. by destruct (wrap _ (getFiles w vh) st1) as [st2 [[]|e]].
Qed.

Lemma oneVolume_run v st :
  oneVolume w v st =
  match GetVolumeHandler w v st with
  | (st1, Ok volumeHandler) =>
      match getFiles w volumeHandler st1 with
      | (st2, Ok _) => (st2, Ok tt)
      | (st2, Err e) => (st2, Err (wrapError "getFiles() failed to get files: " e))
      end
  | (st1, Err e) =>
      (st1, Err (wrapError ("GetVolumeHandler() failed to get a handle to the volume "
                              +:+ v +:+ ": ") e))
  end.
Proof.
  unfold oneVolume. rewrite run_bind. unfold wrap.
  destruct (GetVolumeHandler w v st) as [st1 [vh|e]]; [|done].
  by destruct (getFiles w vh st1) as [st2 [[]|e]].
Qed.

(** What one turn does to the state: the call of [GetHandle] is
    recorded, the descriptor it returned is held open, and the rest of
    the turn is quiet. *)
Lemma oneVolume_state v st :
  exportList_mem (oneVolume w v st).1 = exportList_mem st /\
  openVolumes (oneVolume w v st).1 =
    openVolumes st ++ match handler_GetHandle w v with Ok h => [h] | Err _ => [] end /\
  exists evs,
    trace (oneVolume w v st).1 = trace st ++ EvGetHandle v :: evs /\
    Forall quietEvent evs.
Proof.
  rewrite oneVolume_run.
  pose proof (GetVolumeHandler_state v st) as Hg.
  destruct (GetVolumeHandler w v st) as [st1 [vh|e]]; simpl in Hg; subst st1.
  - destruct (quiet_getFiles w vh
                (extend st (match handler_GetHandle w v with
                            | Ok h => [h] | Err _ => [] end) [EvGetHandle v]))
      as (He & Ho & evs & Ht & Hq).
    destruct (getFiles w vh _) as [st2 [[]|e]]; simpl in *;
      (split; [done|]; split; [done|]; exists evs; split; [|done];
       by rewrite Ht, <- app_assoc).
  - simpl. split; [done|]. split; [done|]. by exists [].
Qed.

Lemma oneVolume_fails v st :
  openFails w v || bootRecordFails w v = true -> isErr (oneVolume w v st).2 = true.
Proof.
  intros H. rewrite oneVolume_run.
  pose proof (GetVolumeHandler_fails v st H) as Hg.
  by destruct (GetVolumeHandler w v st) as [st1 [vh|e]].
Qed.

Lemma oneVolume_events v st u :
  EvGetHandle u ∈ trace (oneVolume w v st).1 -> EvGetHandle u ∈ trace st \/ u = v.
Proof.
  destruct (oneVolume_state v st) as (_ & _ & evs & -> & Hq).
  rewrite elem_of_app, elem_of_cons.
  intros [?|[?|Hin]]; [by left | right; congruence |].
  rewrite Forall_forall in Hq. by destruct (Hq _ Hin).
Qed.

Lemma forVolumes_export vols st :
  exportList_mem (forVolumes w vols st).1 = exportList_mem st.
Proof.
  revert st. induction vols as [|v rest IH]; intros st; [done|].
  rewrite forVolumes_cons.
  destruct (oneVolume_state v st) as (He & _).
  destruct (oneVolume w v st) as [st1 [[]|e]]; simpl in He.
  - by rewrite IH.
  - done.
Qed.

(** Only the volumes of the list are opened. *)
Lemma forVolumes_events vols st u :
  EvGetHandle u ∈ trace (forVolumes w vols st).1 ->
  EvGetHandle u ∈ trace st \/ u ∈ vols.
Proof.
  revert st. induction vols as [|v rest IH]; intros st; [by left|].
  rewrite forVolumes_cons.
  pose proof (oneVolume_events v st u) as Hstep.
  destruct (oneVolume w v st) as [st1 [[]|e]]; simpl in Hstep.
  - intros Hin. destruct (IH _ Hin) as [Hin'|Hin'].
    + destruct (Hstep Hin') as [?| ->]; [by left | right; by left].
    + right. by right.
  - intros Hin. destruct (Hstep Hin) as [?| ->]; [by left | right; by left].
Qed.

(** A volume that cannot be opened ends the loop: the loop returns an
    error and no volume behind it is opened. *)
Lemma forVolumes_fails pre v post st u :
  openFails w v || bootRecordFails w v = true ->
  isErr (forVolumes w (pre ++ v :: post) st).2 = true /\
  (EvGetHandle u ∈ trace (forVolumes w (pre ++ v :: post) st).1 ->
   EvGetHandle u ∈ trace st \/ u ∈ pre \/ u = v).
Proof.
  intros Hf. revert st. induction pre as [|p pre IH]; intros st.
  - simpl app. rewrite forVolumes_cons.
    pose proof (oneVolume_fails v st Hf) as He.
    pose proof (oneVolume_events v st u) as Hstep.
    destruct (oneVolume w v st) as [st1 [[]|e]]; simpl in *; [done|].
    split; [done|]. intros Hin. destruct (Hstep Hin); [by left | by right; right].
  - change ((p :: pre) ++ v :: post) with (p :: (pre ++ v :: post)).
    rewrite forVolumes_cons.
    pose proof (oneVolume_events p st u) as Hp.
    destruct (oneVolume w p st) as [st1 [[]|e]]; simpl in Hp.
    + destruct (IH st1) as [He Hin]. split; [done|].
      intros H. destruct (Hin H) as [H1|[H1|H1]].
      * destruct (Hp H1) as [?| ->]; [by left|]. right. left. by left.
      * right. left. by right.
      * by right; right.
    + split; [done|]. intros H. destruct (Hp H) as [?| ->]; [by left|].
      right. left. by left.
Qed.

Lemma oneVolume_heldOpen v st : heldOpen w st -> heldOpen w (oneVolume w v st).1.
Proof.
  intros Hst u h.
  destruct (oneVolume_state v st) as (_ & -> & evs & -> & Hq).
  rewrite !elem_of_app, elem_of_cons.
  intros [Hin|[Heq|Hin]] Hu.
  - left. by apply (Hst u).
  - right. injection Heq as ->. rewrite Hu. by left.
  - rewrite Forall_forall in Hq. by destruct (Hq _ Hin).
Qed.

Lemma forVolumes_heldOpen vols st :
  heldOpen w st -> heldOpen w (forVolumes w vols st).1.
Proof.
  revert st. induction vols as [|v rest IH]; intros st Hst; [done|].
  rewrite forVolumes_cons.
  pose proof (oneVolume_heldOpen v st Hst) as Hstep.
  destruct (oneVolume w v st) as [st1 [[]|e]]; simpl in Hstep.
  - by apply IH.
  - done.
Qed.

(** [Collect], step by step. *)
Lemma Collect_unfold exportList :
  Collect w exportList =
  let mem := (resolveEnv w exportList).1 in
  let st1 := {| exportList_mem := mem; searchTerms_mem := [];
                openVolumes := []; trace := [] |} in
  match (resolveEnv w exportList).2 with
  | Some err => (st1, Err err)
  | None =>
      match identifyVolumesOfInterest w mem with
      | Err e =>
          (st1, Err (wrapError "identifyVolumesOfInterest() returned an error: " e))
      | Ok vols =>
          match setupSearchTerms w mem with
          | Err e =>
              (st1, Err (wrapError
                           "setupSearchTerms() returned the following error: " e))
          | Ok terms =>
              forVolumes w vols
                {| exportList_mem := mem; searchTerms_mem := terms;
                   openVolumes := []; trace := [] |}
          end
      end
  end.
Proof.
  unfold Collect, CollectM. rewrite run_bind.
  unfold resolveEnvM, initState. simpl.
  destruct (resolveEnv w exportList) as [mem [err|]]; simpl; [done|].
  rewrite !run_bind. simpl. unfold orWrap at 1.
  destruct (identifyVolumesOfInterest w mem) as [vols|e]; [|done].
  rewrite !run_bind. simpl.
  destruct (setupSearchTerms w mem) as [terms|e]; [|done].
  reflexivity.
Qed.

End Volumes.

(** ** [identifyVolumesOfInterest] *)

Section Volumes_of_interest.

Context (w : World).

Lemma identifyVolumes_NoDup l acc vols :
  NoDup acc -> identifyVolumes w acc l = Ok vols -> NoDup vols.
Proof.
  revert acc. induction l as [|e rest IH]; intros acc Hacc; simpl.
  - by intros [= <-].
  - destruct (isLetter w _) as [[]|]; [|done|done].
    case_bool_decide as Hin.
    + by apply IH.
    + apply IH. apply NoDup_app. repeat split; [done | | apply NoDup_singleton].
      intros x Hx Hx'. apply list_elem_of_singleton in Hx'. by subst.
Qed.

Lemma identifyVolumes_elem l acc vols v :
  identifyVolumes w acc l = Ok vols ->
  v ∈ vols <-> v ∈ acc \/ exists e, e ∈ l /\ v = volumeOf w e.
Proof.
  revert acc. induction l as [|e rest IH]; intros acc; simpl.
  - intros [= <-]. split; [by left|]. intros [?|(e & He & _)]; [done|].
    by apply elem_of_nil in He.
  - fold (volumeOf w e). destruct (isLetter w _) as [[]|]; [|done|done].
    case_bool_decide as Hin; intros H; rewrite (IH _ H).
    + split.
      * intros [?|(e' & He' & ->)]; [by left|]. right. exists e'. split; [by right|done].
      * intros [?|(e' & He' & ->)]; [by left|].
        apply elem_of_cons in He' as [->|He']; [by left|]. right. by exists e'.
    + rewrite elem_of_app, list_elem_of_singleton. split.
      * intros [[?| ->]|(e' & He' & ->)]; [by left | | ].
        -- right. exists e. split; [by left|done].
        -- right. exists e'. split; [by right|done].
      * intros [?|(e' & He' & ->)]; [by left; left|].
        apply elem_of_cons in He' as [->|He']; [by left; right|]. right. by exists e'.
Qed.

Lemma identifyVolumes_ok l acc :
  Forall (fun e => isLetter w (volumeOf w e) = Ok true) l ->
  exists vols, identifyVolumes w acc l = Ok vols.
Proof.
  intros H. revert acc. induction H as [|e rest He _ IH]; intros acc; simpl.
  - by exists acc.
  - fold (volumeOf w e). rewrite He. case_bool_decide; apply IH.
Qed.

(** The volumes of interest never repeat. *)
Lemma identifyVolumesOfInterest_NoDup l vols :
  identifyVolumesOfInterest w l = Ok vols -> NoDup vols.
Proof. apply identifyVolumes_NoDup, NoDup_nil_2. Qed.

End Volumes_of_interest.

(** Facts about the ASCII letters, by enumeration of the bytes. *)
Lemma lowerASCII_letter d :
  isASCIILetter d = true ->
  isASCIILetter (lowerASCII d) = true /\
  (code d <? 0x80) = true /\
  (code (lowerASCII d) <? 0x80) = true /\
  lowerASCII d <> ":"%char.
Proof.
  destruct d as [[] [] [] [] [] [] [] []]; vm_compute; intros H;
    first [discriminate H | repeat split; discriminate].
Qed.

Lemma lowerASCII_colon : lowerASCII ":" = ":"%char.
Proof. reflexivity. Qed.

(** ** The deletion of the [$mft] term *)

Lemma indexOfMft_first l1 t l2 i :
  Forall notMft l1 -> fileNameString t = "$mft" ->
  indexOfMft i (l1 ++ t :: l2) = Some (i + List.length l1)%nat.
Proof.
  intros H1 Ht. revert i. induction H1 as [|x l1 Hx _ IH]; intros i; simpl.
  - rewrite decide_True by done. f_equal. lia.
  - rewrite decide_False by done. rewrite IH. f_equal. lia.
Qed.

Lemma indexOfMft_None l i : Forall notMft l -> indexOfMft i l = None.
Proof.
  intros H. revert i. induction H as [|x l Hx _ IH]; intros i; simpl; [done|].
  by rewrite decide_False.
Qed.

(** Every list with a [$mft] term splits at its first such term. *)
Lemma split_first_mft l :
  (exists t, t ∈ l /\ fileNameString t = "$mft") ->
  exists l1 t l2,
    l = l1 ++ t :: l2 /\ Forall notMft l1 /\ fileNameString t = "$mft".
Proof.
  induction l as [|x l IH]; intros (t & Hin & Ht).
  - by apply elem_of_nil in Hin.
  - destruct (decide (fileNameString x = "$mft")) as [Hx|Hx].
    + by exists [], x, l.
    + apply elem_of_cons in Hin as [->|Hin]; [done|].
      destruct IH as (l1 & t' & l2 & -> & H1 & Ht'); [by exists t|].
      exists (x :: l1), t', l2. repeat split; [|done]. by constructor.
Qed.

Lemma insert_at_split {A} (l1 : list A) x y l2 :
  <[List.length l1 := y]> (l1 ++ x :: l2) = l1 ++ y :: l2.
Proof. induction l1 as [|a l1 IH]; simpl; [done | by rewrite IH]. Qed.

(** The loop on a list split at its first [$mft] term, when that term is
    the last one: the slice loses its last place. *)
Lemma deleteMftTerm_last l1 t :
  Forall notMft l1 -> fileNameString t = "$mft" ->
  deleteMftTerm (l1 ++ [t]) = (true, l1 ++ [t], l1).
Proof.
  intros H1 Ht. unfold deleteMftTerm.
  rewrite (indexOfMft_first _ _ _ 0 H1 Ht). simpl.
  rewrite length_app. simpl.
  replace (List.length l1 + 1 - 1)%nat with (List.length l1) by lia.
  rewrite list_lookup_middle by done.
  rewrite insert_at_split. by rewrite take_app_length.
Qed.

(** When other terms follow it: it is overwritten with the last term
    [x], and the slice loses its last place. *)
Lemma deleteMftTerm_middle l1 t l2 x :
  Forall notMft l1 -> fileNameString t = "$mft" ->
  deleteMftTerm (l1 ++ t :: l2 ++ [x]) =
  (true, l1 ++ x :: l2 ++ [x], l1 ++ x :: l2).
Proof.
  intros H1 Ht. unfold deleteMftTerm.
  rewrite (indexOfMft_first _ _ _ 0 H1 Ht). simpl.
  assert (Hlen : (List.length (l1 ++ t :: l2 ++ [x]) - 1)%nat
                 = List.length (l1 ++ t :: l2)).
  { rewrite !length_app. simpl. rewrite length_app. simpl. lia. }
  rewrite Hlen.
  assert (Hlook : (l1 ++ t :: l2 ++ [x]) !! List.length (l1 ++ t :: l2) = Some x).
  { change (l1 ++ t :: l2 ++ [x]) with (l1 ++ (t :: l2) ++ [x]).
    rewrite app_assoc. by apply list_lookup_middle. }
  rewrite Hlook, insert_at_split.
  f_equal.
  change (l1 ++ x :: l2 ++ [x]) with (l1 ++ (x :: l2) ++ [x]).
  rewrite app_assoc. apply take_app_length'.
  rewrite !length_app. simpl. lia.
Qed.

Lemma deleteMftTerm_none l :
  Forall notMft l -> deleteMftTerm l = (false, l, l).
Proof. intros H. unfold deleteMftTerm. by rewrite indexOfMft_None. Qed.

(** ** [getFiles] *)

Section GetFiles.

Context (w : World).

Lemma sendFoundFiles_run v files st :
  trace (sendFoundFiles w v files st).1
    = trace st ++ map (fun file => EvSend (entryFor w v file)) files /\
  (sendFoundFiles w v files st).2 = Ok tt.
Proof.
  revert st. induction files as [|file rest IH]; intros st; simpl.
  - by rewrite app_nil_r.
  - rewrite run_bind. simpl. destruct (IH (emit (EvSend (entryFor w v file)) st).1) as [Ht Hr].
    unfold entryFor in *. simpl in *. split; [|done].
    by rewrite Ht, <- app_assoc.
Qed.

(** The run of [getFiles] when record 0 parses, the walk succeeds and the
    pipe, if there is one, closes. *)
Lemma getFiles_ok v st mftRecord0 pm dt :
  let copy := (deleteMftTerm (searchTerms_mem st)).1.1 in
  let terms := (deleteMftTerm (searchTerms_mem st)).2 in
  parseMFTRecord0 w v = Ok mftRecord0 ->
  findPossibleMatches w (walkHandler v mftRecord0 copy) terms = Ok (pm, dt) ->
  (copy = true -> pipeWriter_Close w = None) ->
  (getFiles w v st).2 = Ok tt /\
  trace (getFiles w v st).1 =
    trace st ++ walkEvents v mftRecord0 copy terms
      ++ map (fun file => EvSend (entryFor w v file)) (confirmFoundFiles w terms pm dt)
      ++ [EvCloseChan; EvWait].
Proof.
  intros copy terms Hparse Hwalk Hclose. subst copy terms.
  unfold getFiles, walkEvents, walkHandler, mftReaderOf, deleteMftTermM,
    walk, closePipe in *.
  runM. rewrite Hparse. simpl.
  destruct (deleteMftTerm (searchTerms_mem st)) as [[copy mem] terms]. simpl in *.
  destruct copy; simpl; rewrite Hwalk; simpl.
  - rewrite (Hclose eq_refl). simpl.
    match goal with |- context [sendFoundFiles w v ?fs ?s] =>
      destruct (sendFoundFiles_run v fs s) as [Ht Hr];
      destruct (sendFoundFiles w v fs s) as [st2 [[]|e]] end;
    simpl in *; [|done]. split; [done|].
    rewrite Ht. by rewrite <- !app_assoc.
  - match goal with |- context [sendFoundFiles w v ?fs ?s] =>
      destruct (sendFoundFiles_run v fs s) as [Ht Hr];
      destruct (sendFoundFiles w v fs s) as [st2 [[]|e]] end;
    simpl in *; [|done]. split; [done|].
    rewrite Ht. by rewrite <- !app_assoc.
Qed.

(** The run of [getFiles] when record 0 does not parse. *)
Lemma getFiles_parse_fails v st e :
  parseMFTRecord0 w v = Err e ->
  (getFiles w v st).2 =
    Err (wrapError ("parseMFTRecord0() failed to parse mft record 0 from the volume "
                      +:+ VolumeLetter v +:+ ": ") e) /\
  trace (getFiles w v st).1 = trace st ++ [EvGo (VolumeLetter v)].
Proof. intros H. unfold getFiles. runM. by rewrite H. Qed.

(** The run of [getFiles] when the walk fails. *)
Lemma getFiles_walk_fails v st mftRecord0 e :
  let copy := (deleteMftTerm (searchTerms_mem st)).1.1 in
  let terms := (deleteMftTerm (searchTerms_mem st)).2 in
  parseMFTRecord0 w v = Ok mftRecord0 ->
  findPossibleMatches w (walkHandler v mftRecord0 copy) terms = Err e ->
  (getFiles w v st).2 = Err (wrapError "findPossibleMatches() failed: " e) /\
  trace (getFiles w v st).1 =
    trace st ++ [EvGo (VolumeLetter v); EvSeek (Handle v) (MftByteOffset (Vbr v))]
      ++ (if copy then [EvSend (mftEntry v)] else [])
      ++ [EvWalk (walkHandler v mftRecord0 copy) terms].
Proof.
  intros copy terms Hparse Hwalk. subst copy terms.
  unfold getFiles, walkHandler, mftReaderOf, deleteMftTermM, walk in *.
  runM. rewrite Hparse. simpl.
  destruct (deleteMftTerm (searchTerms_mem st)) as [[copy mem] terms]. simpl in *.
  destruct copy; simpl; rewrite Hwalk; simpl; (split; [done|]);
    by rewrite <- !app_assoc.
Qed.

End GetFiles.

(** * Theorems *)

(** ** C1: a request whose expansion fails *)

(** C1, as amended.  When the path of some request fails
    environment-variable expansion, [resolveEnv] stops at the first such
    request and [Collect] returns its error at once: no request is
    processed, no volume is opened and nothing is recorded. *)
Theorem Collect_expansion_failure_aborts (w : World) (exportList : list FileToExport) :
  Exists (expansionFails w) exportList ->
  exists err,
    (resolveEnv w exportList).2 = Some err /\
    (Collect w exportList).2 = Err err /\
    trace (Collect w exportList).1 = [] /\
    openVolumes (Collect w exportList).1 = [].
Proof.
  intros H. apply resolveEnv_fails in H.
  rewrite Collect_unfold.
  destruct (resolveEnv w exportList) as [mem [err|]]; simpl in *; [|done].
  by exists err.
Qed.

(** C1, witness: the request with a NUL byte, followed by the request
    for the MFT. *)
Lemma Collect_expansion_failure_aborts_witness :
  Exists (expansionFails labWorld) [reqBad; reqMft] /\
  exists err,
    (resolveEnv labWorld [reqBad; reqMft]).2 = Some err /\
    (Collect labWorld [reqBad; reqMft]).2 = Err err /\
    trace (Collect labWorld [reqBad; reqMft]).1 = [] /\
    openVolumes (Collect labWorld [reqBad; reqMft]).1 = [].
Proof.
  assert (H : Exists (expansionFails labWorld) [reqBad; reqMft]).
  { apply Exists_cons_hd. unfold expansionFails. simpl. discriminate. }
  split; [exact H|].
  exact (Collect_expansion_failure_aborts labWorld [reqBad; reqMft] H).
Defined.

(** C1, counterexample.  The expansion of the first request fails and
    that of the second does not; alone, the second request has volume
    [c] opened and the copy of its MFT sent on the channel; behind the
    failing request it is not processed: [Collect] returns an error and
    has done nothing. *)
Lemma Collect_does_not_skip_failed_request :
  expansionFails labWorld reqBad /\
  ~ expansionFails labWorld reqMft /\
  map fr_fullPath (sent (trace (Collect labWorld [reqMft]).1)) = ["c__$mft"] /\
  trace (Collect labWorld [reqBad; reqMft]).1 = [] /\
  isErr (Collect labWorld [reqBad; reqMft]).2 = true.
Proof.
  split; [|split; [|split; [|split]]].
  - unfold expansionFails. simpl. discriminate.
  - unfold expansionFails. simpl. intros H. by apply H.
  - vm_compute. reflexivity.
  - vm_compute. reflexivity.
  - vm_compute. reflexivity.
Qed.

(** ** C2: a volume that cannot be opened *)

(** C2, as amended.  When a volume of interest cannot be opened, or its
    boot record cannot be read or parsed, [Collect] returns an error and
    attempts none of the volumes behind it. *)
Theorem Collect_volume_failure_aborts (w : World) (exportList : list FileToExport)
    (pre : list string) (v : string) (post : list string) :
  (resolveEnv w exportList).2 = None ->
  identifyVolumesOfInterest w (resolveEnv w exportList).1 = Ok (pre ++ v :: post) ->
  openFails w v || bootRecordFails w v = true ->
  isErr (Collect w exportList).2 = true /\
  forall u, u ∈ post -> EvGetHandle u ∉ trace (Collect w exportList).1.
Proof.
  intros Hres Hvols Hfail.
  rewrite Collect_unfold. simpl. rewrite Hres, Hvols.
  destruct (setupSearchTerms w _) as [terms|e].
  2: { split; [done|]. intros u _ H. by apply elem_of_nil in H. }
  split; [by apply forVolumes_fails|].
  intros u Hu Hin.
  apply identifyVolumesOfInterest_NoDup in Hvols.
  apply NoDup_app in Hvols as (_ & Hpre & Hpost).
  apply NoDup_cons in Hpost as [Hv _].
  match type of Hin with context [forVolumes w _ ?st0] =>
    destruct (forVolumes_fails w pre v post st0 u Hfail) as [_ Hev] end.
  destruct (Hev Hin) as [H|[H| ->]].
  - by apply elem_of_nil in H.
  - apply (Hpre u H). by right.
  - done.
Qed.

(** C2, witness: the boot record of volume [d] does not parse, and volume
    [c] comes behind it. *)
Lemma Collect_volume_failure_aborts_witness :
  let exportList := [reqOn "D"; reqMft] in
  (resolveEnv labWorld exportList).2 = None /\
  identifyVolumesOfInterest labWorld (resolveEnv labWorld exportList).1
    = Ok ([] ++ "d" :: ["c"]) /\
  openFails labWorld "d" || bootRecordFails labWorld "d" = true /\
  isErr (Collect labWorld exportList).2 = true /\
  forall u, u ∈ ["c"] -> EvGetHandle u ∉ trace (Collect labWorld exportList).1.
Proof.
  intros exportList.
  split; [reflexivity|]. split; [reflexivity|]. split; [reflexivity|].
  apply (Collect_volume_failure_aborts labWorld exportList [] "d" ["c"]);
    reflexivity.
Defined.

(** C2, counterexample.  Volumes [d] and [z] are followed by volume [c],
    which opens; the boot record of [d] does not parse and [z] does not
    open.  In both runs the only action of [Collect] is the call of
    [GetHandle] for the failing volume. *)
Lemma Collect_does_not_try_remaining_volumes :
  identifyVolumesOfInterest labWorld [reqOn "D"; reqMft] = Ok ["d"; "c"] /\
  bootRecordFails labWorld "d" = true /\
  openFails labWorld "c" || bootRecordFails labWorld "c" = false /\
  isErr (Collect labWorld [reqOn "D"; reqMft]).2 = true /\
  trace (Collect labWorld [reqOn "D"; reqMft]).1 = [EvGetHandle "d"] /\
  identifyVolumesOfInterest labWorld [reqOn "z"; reqMft] = Ok ["z"; "c"] /\
  openFails labWorld "z" = true /\
  isErr (Collect labWorld [reqOn "z"; reqMft]).2 = true /\
  trace (Collect labWorld [reqOn "z"; reqMft]).1 = [EvGetHandle "z"].
Proof. repeat split; vm_compute; reflexivity. Qed.

(** ** C3: the barrier on the consumer *)

Ltac not_in_list :=
  let H := fresh in
  intros H;
  repeat (apply elem_of_cons in H as [H|H]; [discriminate H|]);
  by apply elem_of_nil in H.

(** On its successful return [getFiles] has closed the channel and
    waited for the consumer. *)
Lemma getFiles_ok_waits (w : World) (v : VolumeHandler) (st : State) :
  isErr (getFiles w v st).2 = false ->
  exists evs,
    trace (getFiles w v st).1
      = trace st ++ EvGo (VolumeLetter v) :: evs ++ [EvCloseChan; EvWait].
Proof.
  destruct (parseMFTRecord0 w v) as [rec0|e] eqn:Hparse.
  2: { destruct (getFiles_parse_fails w v st e Hparse) as [-> _]. done. }
  destruct (findPossibleMatches w
              (walkHandler v rec0 (deleteMftTerm (searchTerms_mem st)).1.1)
              (deleteMftTerm (searchTerms_mem st)).2) as [[pm dt]|e] eqn:Hwalk.
  2: { destruct (getFiles_walk_fails w v st rec0 e Hparse Hwalk) as [-> _]. done. }
  destruct (pipeWriter_Close w) as [e|] eqn:Hclose.
  - destruct (deleteMftTerm (searchTerms_mem st)) as [[copy mem] terms] eqn:Hdel.
    simpl in Hwalk. revert Hwalk. 
    unfold getFiles, walkHandler, mftReaderOf, deleteMftTermM, walk, closePipe.
    rewrite Hclose. runM. rewrite Hparse. simpl. rewrite Hdel. simpl.
    destruct copy; intros ->; simpl; [done|].
    match goal with |- context [sendFoundFiles w v ?fs ?s] =>
      destruct (sendFoundFiles_run w v fs s) as [Ht Hr];
      destruct (sendFoundFiles w v fs s) as [st2 [[]|e']] end;
    simpl in *; [|done]. intros _.
    exists ([EvSeek (Handle v) (MftByteOffset (Vbr v));
             EvWalk (setMftReader v (rawFileReader v
                       {| dataRuns := DataRuns rec0; fullPath := "$mft" |})) terms]
            ++ map (fun file => EvSend (entryFor w v file))
                 (confirmFoundFiles w terms pm dt)).
    rewrite Ht. by rewrite <- !app_assoc.
  - destruct (getFiles_ok w v st rec0 pm dt Hparse Hwalk (fun _ => Hclose)) as [_ ->].
    intros _. unfold walkEvents.
    destruct (deleteMftTerm (searchTerms_mem st)) as [[copy mem] terms].
    simpl. destruct copy; simpl.
    + exists ([EvSeek (Handle v) (MftByteOffset (Vbr v)); EvSend (mftEntry v);
               EvWalk (walkHandler v rec0 true) terms; EvPipeClose]
              ++ map (fun file => EvSend (entryFor w v file))
                   (confirmFoundFiles w terms pm dt)).
      by rewrite <- !app_assoc.
    + exists ([EvSeek (Handle v) (MftByteOffset (Vbr v));
               EvWalk (walkHandler v rec0 false) terms]
              ++ map (fun file => EvSend (entryFor w v file))
                   (confirmFoundFiles w terms pm dt)).
      by rewrite <- !app_assoc.
Qed.

(** C3.  Every error return of [getFiles] leaves the consumer behind:
    the goroutine has been started, and the run of [getFiles] neither
    closes the channel nor waits on the wait group. *)
Theorem getFiles_error_return_skips_wait (w : World) (v : VolumeHandler) (st : State) :
  isErr (getFiles w v st).2 = true ->
  exists evs,
    trace (getFiles w v st).1 = trace st ++ EvGo (VolumeLetter v) :: evs /\
    (EvCloseChan ∉ evs) /\ (EvWait ∉ evs).
Proof.
  destruct (parseMFTRecord0 w v) as [rec0|e] eqn:Hparse.
  2: { destruct (getFiles_parse_fails w v st e Hparse) as [_ ->].
       intros _. exists []. repeat split; not_in_list. }
  destruct (findPossibleMatches w
              (walkHandler v rec0 (deleteMftTerm (searchTerms_mem st)).1.1)
              (deleteMftTerm (searchTerms_mem st)).2) as [[pm dt]|e] eqn:Hwalk.
  2: { destruct (getFiles_walk_fails w v st rec0 e Hparse Hwalk) as [_ ->].
       intros _.
       destruct (deleteMftTerm (searchTerms_mem st)) as [[copy mem] terms].
       simpl. destruct copy; simpl.
       - exists [EvSeek (Handle v) (MftByteOffset (Vbr v)); EvSend (mftEntry v);
                 EvWalk (walkHandler v rec0 true) terms].
         repeat split; not_in_list.
       - exists [EvSeek (Handle v) (MftByteOffset (Vbr v));
                 EvWalk (walkHandler v rec0 false) terms].
         repeat split; not_in_list. }
  destruct (pipeWriter_Close w) as [e|] eqn:Hclose.
  - destruct (deleteMftTerm (searchTerms_mem st)) as [[copy mem] terms] eqn:Hdel.
    simpl in Hwalk. revert Hwalk.
    unfold getFiles, walkHandler, mftReaderOf, deleteMftTermM, walk, closePipe.
    rewrite Hclose. runM. rewrite Hparse. simpl. rewrite Hdel. simpl.
    destruct copy; intros ->; simpl.
    + intros _.
      exists [EvSeek (Handle v) (MftByteOffset (Vbr v)); EvSend (mftEntry v);
              EvWalk (walkHandler v rec0 true) terms; EvPipeClose].
      rewrite <- !app_assoc. repeat split; not_in_list.
    + match goal with |- context [sendFoundFiles w v ?fs ?s] =>
        destruct (sendFoundFiles_run w v fs s) as [Ht Hr];
        destruct (sendFoundFiles w v fs s) as [st2 [[]|e']] end;
      simpl in *; done.
  - destruct (getFiles_ok w v st rec0 pm dt Hparse Hwalk (fun _ => Hclose)) as [-> _]. done.
Qed.

(** C3, witness: record 0 of the MFT of volume [e] is corrupt.  [Collect]
    returns the error of [getFiles] with the consumer started and never
    waited for. *)
Lemma getFiles_error_return_skips_wait_witness :
  let v := {| Handle := 5; VolumeLetter := "e"; Vbr := labGeometry;
              mftReader := None; lastReadVolumeOffset := 0 |} in
  let st := {| exportList_mem := [reqOn "e"];
               searchTerms_mem := [ {| fullPathString := "e:\pagefile.sys";
                                       fileNameString := "pagefile.sys" |} ];
               openVolumes := [5]; trace := [EvGetHandle "e"] |} in
  isErr (getFiles labWorld v st).2 = true /\
  isErr (Collect labWorld [reqOn "e"]).2 = true /\
  trace (Collect labWorld [reqOn "e"]).1 = [EvGetHandle "e"; EvGo "e"] /\
  exists evs,
    trace (getFiles labWorld v st).1 = trace st ++ EvGo (VolumeLetter v) :: evs /\
    (EvCloseChan ∉ evs) /\ (EvWait ∉ evs).
Proof.
  intros v st.
  assert (H : isErr (getFiles labWorld v st).2 = true) by reflexivity.
  split; [exact H|]. split; [reflexivity|]. split; [reflexivity|].
  exact (getFiles_error_return_skips_wait labWorld v st H).
Defined.

(** ** C4: the device descriptor *)

(** C4, as amended.  [Collect], [GetVolumeHandler] and [getFiles] close
    no volume: on every return of [Collect], with or without an error,
    the descriptor that each successful call of [GetHandle] returned is
    still held open. *)
Theorem Collect_leaves_handles_open (w : World) (exportList : list FileToExport)
    (v : string) (h : File) :
  EvGetHandle v ∈ trace (Collect w exportList).1 ->
  handler_GetHandle w v = Ok h ->
  h ∈ openVolumes (Collect w exportList).1.
Proof.
  assert (H : heldOpen w (Collect w exportList).1); [|by apply H].
  rewrite Collect_unfold. simpl.
  assert (H0 : forall mem terms, heldOpen w
            {| exportList_mem := mem; searchTerms_mem := terms;
               openVolumes := []; trace := [] |}).
  { intros mem terms u g Hin. by apply elem_of_nil in Hin. }
  destruct (resolveEnv w exportList).2; [apply H0|].
  destruct (identifyVolumesOfInterest w _); [|apply H0].
  destruct (setupSearchTerms w _); [|apply H0].
  apply forVolumes_heldOpen, H0.
Qed.

(** C4, witness: the run for the MFT of volume [c], which succeeds. *)
Lemma Collect_leaves_handles_open_witness :
  EvGetHandle "c" ∈ trace (Collect labWorld [reqMft]).1 /\
  handler_GetHandle labWorld "c" = Ok 3 /\
  3 ∈ openVolumes (Collect labWorld [reqMft]).1.
Proof.
  assert (H1 : EvGetHandle "c" ∈ trace (Collect labWorld [reqMft]).1)
    by (vm_compute; apply list_elem_of_here).
  assert (H2 : handler_GetHandle labWorld "c" = Ok 3) by reflexivity.
  split; [exact H1|]. split; [exact H2|].
  exact (Collect_leaves_handles_open labWorld [reqMft] "c" 3 H1 H2).
Defined.

(** C4, counterexample.  The run for the MFT of volume [c] returns
    without error, and the run for volume [e] returns the error of
    [getFiles]; in both the descriptor of the volume is open when
    [Collect] returns. *)
Lemma Collect_returns_with_open_handle :
  (Collect labWorld [reqMft]).2 = Ok tt /\
  openVolumes (Collect labWorld [reqMft]).1 = [3] /\
  isErr (Collect labWorld [reqOn "e"]).2 = true /\
  openVolumes (Collect labWorld [reqOn "e"]).1 = [5].
Proof. repeat split; vm_compute; reflexivity. Qed.

(** ** C5: the export of the MFT *)

Lemma readAt_length d h offset n : List.length (readAt d h offset n) = n.
Proof. revert offset. induction n as [|n IH]; intros offset; simpl; [done | by rewrite IH]. Qed.

(** The Extent Reader yields the sum of the run lengths, in bytes. *)
Lemma ReadExtents_length d h clusterSize runs :
  List.length (ReadExtents d h clusterSize runs) =
  sum_list (map (fun run => Z.to_nat (runLength run * clusterSize)) runs).
Proof.
  unfold ReadExtents. induction runs as [|run runs IH]; simpl; [done|].
  rewrite length_app, IH. f_equal.
  destruct (runStart run); [apply readAt_length | apply repeat_length].
Qed.

(** C5, as amended.  In the scenario [Collect] returns without error and
    the sink receives exactly one entry; its name is [c__$mft], with the
    volume letter in lower case, and its content is 16384 bytes long. *)
Theorem Collect_mft_scenario (w : World) (d : Disk) :
  MftScenario w ->
  (Collect w [reqMft]).2 = Ok tt /\
  exists bytes,
    sink d (trace (Collect w [reqMft]).1) = [("c__$mft", Some bytes)] /\
    Z.of_nat (List.length bytes) = 16384.
Proof.
  intros (Hexp & Hlow & Hlet & Hterms
          & (h & b & vbr & Hopen & Hread & Hparse & Hcs & Hrec)
          & Hwalk & Hclose).
  assert (Hres : resolveEnv w [reqMft] = ([reqMft], None)).
  { simpl. change (FullPath reqMft) with "C:\$MFT". by rewrite Hexp. }
  assert (Hvol : identifyVolumesOfInterest w [reqMft] = Ok ["c"]).
  { unfold identifyVolumesOfInterest. simpl.
    change (FullPath reqMft) with "C:\$MFT". rewrite Hlow. simpl.
    by rewrite Hlet. }
  rewrite Collect_unfold, Hres. cbv zeta. cbn [fst snd].
  rewrite Hvol, Hterms. cbn [spec_setupSearchTerms map].
  rewrite forVolumes_cons, oneVolume_run.
  rewrite (GetVolumeHandler_ok w "c" _ h b vbr Hopen Hread Hparse).
  set (v := {| Handle := h; VolumeLetter := "c"; Vbr := vbr;
               mftReader := None; lastReadVolumeOffset := 0 |}).
  set (st := extend _ [h] [EvGetHandle "c"]).
  set (rec0 := {| DataRuns := [mftRun] |}).
  assert (Hdel : deleteMftTerm (searchTerms_mem st)
                 = (true, [ {| fullPathString := "c:\$mft";
                               fileNameString := "$mft" |} ], [])) by reflexivity.
  destruct (Hwalk (walkHandler v rec0 true)) as (pm & dt & Hw & Hconfirm).
  pose proof (getFiles_ok w v st rec0 pm dt) as Hg.
  rewrite Hdel in Hg. simpl in Hg.
  destruct Hg as [Hr Ht]; [exact Hrec | exact Hw | by intros _ |].
  rewrite Hconfirm in Ht.
  destruct (getFiles w v st) as [st2 [[]|e]]; simpl in Hr, Ht; [|done].
  simpl. split; [done|]. rewrite Ht. simpl.
  exists (ReadExtents d h (BytesPerCluster vbr) [mftRun]).
  split; [reflexivity|].
  rewrite ReadExtents_length. simpl. by rewrite Hcs.
Qed.

(** The test double is an instance of the scenario. *)
Lemma labWorld_MftScenario : MftScenario labWorld.
Proof.
  repeat split; try reflexivity.
  - exists 3, (take 512 ("235"%byte :: "082"%byte :: "144"%byte
                          :: repeat "000"%byte 512)), labGeometry.
    repeat split; reflexivity.
  - intros v. exists [], []. split; reflexivity.
Defined.

(** C5, witness: the scenario on the test double. *)
Lemma Collect_mft_scenario_witness :
  MftScenario labWorld /\
  (Collect labWorld [reqMft]).2 = Ok tt /\
  exists bytes,
    sink labDisk (trace (Collect labWorld [reqMft]).1) = [("c__$mft", Some bytes)] /\
    Z.of_nat (List.length bytes) = 16384.
Proof.
  split; [exact labWorld_MftScenario|].
  exact (Collect_mft_scenario labWorld labDisk labWorld_MftScenario).
Defined.

(** C5, counterexample.  In the scenario the entry that [getFiles] sends,
    and that reaches the sink, is not named [C__$mft]:
    [identifyVolumesOfInterest] lowers the path before it reads the
    volume letter off it. *)
Lemma Collect_mft_entry_name_is_lower_case :
  MftScenario labWorld /\
  identifyVolumesOfInterest labWorld [reqMft] = Ok ["c"] /\
  map fr_fullPath (sent (trace (Collect labWorld [reqMft]).1)) = ["c__$mft"] /\
  map fst (sink labDisk (trace (Collect labWorld [reqMft]).1)) = ["c__$mft"] /\
  ~ exists bytes,
      sink labDisk (trace (Collect labWorld [reqMft]).1) = [("C__$mft", Some bytes)] /\
      Z.of_nat (List.length bytes) = 16384.
Proof.
  split; [exact labWorld_MftScenario|].
  split; [reflexivity|]. split; [reflexivity|].
  assert (H : map fst (sink labDisk (trace (Collect labWorld [reqMft]).1))
              = ["c__$mft"]) by (vm_compute; reflexivity).
  split; [exact H|].
  intros (bytes & Hs & _). rewrite Hs in H. discriminate H.
Qed.

(** ** C6: the fallback to the raw reader *)

(** C6.  When record 0 parses and the walk succeeds (and the pipe of the
    MFT copy, if there is one, closes), [getFiles] returns
    no error whatever [apiFileReader] answers, and after the walk it
    sends exactly one entry for each confirmed file, in order, under the
    path of the file; when the open by path fails, the reader of that
    entry is the raw reader over the data runs of that file on the
    volume handle. *)
Theorem getFiles_falls_back_to_raw_reader (w : World) (v : VolumeHandler)
    (st : State) (mftRecord0 : MasterFileTableRecord)
    (pm : possibleMatches) (dt : DirectoryTree) :
  let copy := (deleteMftTerm (searchTerms_mem st)).1.1 in
  let terms := (deleteMftTerm (searchTerms_mem st)).2 in
  let foundFiles := confirmFoundFiles w terms pm dt in
  parseMFTRecord0 w v = Ok mftRecord0 ->
  findPossibleMatches w (walkHandler v mftRecord0 copy) terms = Ok (pm, dt) ->
  (copy = true -> pipeWriter_Close w = None) ->
  (getFiles w v st).2 = Ok tt /\
  trace (getFiles w v st).1 =
    trace st ++ walkEvents v mftRecord0 copy terms
      ++ map (fun file => EvSend (entryFor w v file)) foundFiles
      ++ [EvCloseChan; EvWait] /\
  forall file,
    fr_fullPath (entryFor w v file) = fullPath file /\
    (isErr (apiFileReader w file) = true ->
     fr_reader (entryFor w v file) = rawR (Handle v) (Vbr v) file).
Proof.
  intros copy terms foundFiles Hparse Hwalk Hclose.
  destruct (getFiles_ok w v st mftRecord0 pm dt Hparse Hwalk Hclose) as [Hr Ht].
  split; [exact Hr|]. split; [exact Ht|].
  intros file. split; [reflexivity|].
  unfold entryFor, readerFor. simpl.
  by destruct (apiFileReader w file).
Qed.

(** C6, witness: the SYSTEM hive, which is locked, and the SOFTWARE hive
    on volume [c]. *)
Lemma getFiles_falls_back_to_raw_reader_witness :
  let v := {| Handle := 3; VolumeLetter := "c"; Vbr := labGeometry;
              mftReader := None; lastReadVolumeOffset := 0 |} in
  let system := {| fullPathString := "c:\windows\system32\config\system";
                   fileNameString := "system" |} in
  let software := {| fullPathString := "c:\windows\system32\config\software";
                     fileNameString := "software" |} in
  let st := {| exportList_mem := [reqSystem; reqSoftware];
               searchTerms_mem := [system; software];
               openVolumes := [3]; trace := [EvGetHandle "c"] |} in
  let mftRecord0 := {| DataRuns := [mftRun] |} in
  let pm := [(0, "system"); (0, "software")] in
  let dt := [(0, "c:\windows\system32\config\system");
             (0, "c:\windows\system32\config\software")] in
  let hive := {| dataRuns := [ {| runLength := 2; runStart := Some 500 |} ];
                 fullPath := "c:\windows\system32\config\system" |} in
  (parseMFTRecord0 labWorld v = Ok mftRecord0 /\
   findPossibleMatches labWorld (walkHandler v mftRecord0 false) [system; software]
     = Ok (pm, dt) /\
   ((deleteMftTerm (searchTerms_mem st)).1.1 = true ->
    pipeWriter_Close labWorld = None) /\
   isErr (apiFileReader labWorld hive) = true) /\
  (getFiles labWorld v st).2 = Ok tt /\
  trace (getFiles labWorld v st).1 =
    trace st ++ walkEvents v mftRecord0 false [system; software]
      ++ map (fun file => EvSend (entryFor labWorld v file))
           (confirmFoundFiles labWorld [system; software] pm dt)
      ++ [EvCloseChan; EvWait] /\
  fr_reader (entryFor labWorld v hive) = rawR 3 labGeometry hive.
Proof.
  intros v system software st mftRecord0 pm dt hive.
  assert (H1 : parseMFTRecord0 labWorld v = Ok mftRecord0) by reflexivity.
  assert (H2 : findPossibleMatches labWorld (walkHandler v mftRecord0 false)
                 [system; software] = Ok (pm, dt)) by reflexivity.
  assert (H3 : (deleteMftTerm (searchTerms_mem st)).1.1 = true ->
               pipeWriter_Close labWorld = None) by reflexivity.
  assert (H4 : isErr (apiFileReader labWorld hive) = true) by reflexivity.
  split; [by repeat split|].
  destruct (getFiles_falls_back_to_raw_reader labWorld v st mftRecord0 pm dt H1 H2 H3)
    as (Hr & Ht & Hfile).
  split; [exact Hr|]. split; [exact Ht|].
  exact (proj2 (Hfile hive) H4).
Defined.

(** ** C7: the deletion of the [$mft] term *)

Lemma snoc_cases {A} (l : list A) : l = [] \/ exists l' x, l = l' ++ [x].
Proof.
  induction l as [|a l IH]; [by left|]. right.
  destruct IH as [->|(l' & x & ->)].
  - by exists [], a.
  - by exists (a :: l'), x.
Qed.

(** The loop deletes the first term named [$mft] and no other. *)
Lemma deleteMftTerm_first_only (l : list searchTerms) :
  (exists t, t ∈ l /\ fileNameString t = "$mft") ->
  exists l1 t l2,
    l = l1 ++ t :: l2 /\
    Forall notMft l1 /\
    fileNameString t = "$mft" /\
    (deleteMftTerm l).1.1 = true /\
    (deleteMftTerm l).2 ≡ₚ l1 ++ l2.
Proof.
  intros H. destruct (split_first_mft l H) as (l1 & t & l2 & -> & H1 & Ht).
  exists l1, t, l2. split; [done|]. split; [done|]. split; [done|].
  destruct (snoc_cases l2) as [->|(l2' & x & ->)].
  - rewrite (deleteMftTerm_last l1 t H1 Ht). simpl. by rewrite app_nil_r.
  - rewrite (deleteMftTerm_middle l1 t l2' x H1 Ht). simpl. split; [done|].
    apply Permutation_app_head. apply Permutation_cons_append.
Qed.

Lemma walkedTerms_app tr1 tr2 :
  walkedTerms (tr1 ++ tr2) = walkedTerms tr1 ++ walkedTerms tr2.
Proof. apply flat_map_app. Qed.

Lemma walkedTerms_sends w v files :
  walkedTerms (map (fun file => EvSend (entryFor w v file)) files) = [].
Proof. induction files as [|file files IH]; [done|]. simpl. exact IH. Qed.

(** Whenever record 0 parses, [getFiles] walks once, and the walk is
    handed the slice that the deletion loop leaves. *)
Lemma getFiles_walkedTerms (w : World) (v : VolumeHandler) (st : State)
    (mftRecord0 : MasterFileTableRecord) :
  parseMFTRecord0 w v = Ok mftRecord0 ->
  walkedTerms (trace (getFiles w v st).1)
    = walkedTerms (trace st) ++ [(deleteMftTerm (searchTerms_mem st)).2].
Proof.
  intros Hparse.
  destruct (findPossibleMatches w
              (walkHandler v mftRecord0 (deleteMftTerm (searchTerms_mem st)).1.1)
              (deleteMftTerm (searchTerms_mem st)).2) as [[pm dt]|e] eqn:Hwalk.
  2: { destruct (getFiles_walk_fails w v st mftRecord0 e Hparse Hwalk) as [_ ->].
       rewrite !walkedTerms_app.
       destruct (deleteMftTerm (searchTerms_mem st)).1.1; simpl;
         by rewrite ?app_nil_r. }
  destruct (pipeWriter_Close w) as [e|] eqn:Hclose.
  - destruct (deleteMftTerm (searchTerms_mem st)) as [[copy mem] terms] eqn:Hdel.
    simpl in Hwalk. revert Hwalk.
    unfold getFiles, walkHandler, mftReaderOf, deleteMftTermM, walk, closePipe.
    rewrite Hclose. runM. rewrite Hparse. simpl. rewrite Hdel. simpl.
    destruct copy; intros ->; simpl.
    + rewrite !walkedTerms_app. simpl. by rewrite ?app_nil_r.
    + match goal with |- context [sendFoundFiles w v ?fs ?s] =>
        destruct (sendFoundFiles_run w v fs s) as [Ht Hr];
        destruct (sendFoundFiles w v fs s) as [st2 [[]|e']] end;
      simpl in *; [|done].
      rewrite !walkedTerms_app, Ht, !walkedTerms_app, walkedTerms_sends. simpl.
      by rewrite ?app_nil_r.
  - destruct (getFiles_ok w v st mftRecord0 pm dt Hparse Hwalk (fun _ => Hclose)) as [_ ->].
    unfold walkEvents. rewrite !walkedTerms_app, walkedTerms_sends.
    destruct (deleteMftTerm (searchTerms_mem st)).1.1; simpl;
      by rewrite ?app_nil_r.
Qed.

(** C7, as amended.  From search terms with at least one term named
    [$mft], [getFiles] deletes the first such term and no other before
    the walk: the terms handed to [findPossibleMatches] are the terms
    before it and the terms behind it (the last term moved into its
    place), so that they hold no term named [$mft] exactly when none
    stands behind the first. *)
Theorem getFiles_deletes_first_mft_term_only (w : World) (v : VolumeHandler)
    (st : State) (mftRecord0 : MasterFileTableRecord) :
  parseMFTRecord0 w v = Ok mftRecord0 ->
  (exists t, t ∈ searchTerms_mem st /\ fileNameString t = "$mft") ->
  exists l1 t l2 walked,
    searchTerms_mem st = l1 ++ t :: l2 /\
    Forall notMft l1 /\
    fileNameString t = "$mft" /\
    walkedTerms (trace (getFiles w v st).1) = walkedTerms (trace st) ++ [walked] /\
    walked ≡ₚ l1 ++ l2 /\
    (Forall notMft walked <-> Forall notMft l2).
Proof.
  intros Hparse H.
  destruct (deleteMftTerm_first_only _ H) as (l1 & t & l2 & Hl & H1 & Ht & _ & Hperm).
  exists l1, t, l2, (deleteMftTerm (searchTerms_mem st)).2.
  split; [done|]. split; [done|]. split; [done|].
  split; [by apply (getFiles_walkedTerms w v st mftRecord0)|].
  split; [done|].
  rewrite Hperm, Forall_app. split; [by intros [_ ?] | by intros ?].
Qed.

(** C7, witness: the request for the MFT between two other requests, on
    volume [c]. *)
Lemma getFiles_deletes_first_mft_term_only_witness :
  let v := {| Handle := 3; VolumeLetter := "c"; Vbr := labGeometry;
              mftReader := None; lastReadVolumeOffset := 0 |} in
  let system := {| fullPathString := "c:\windows\system32\config\system";
                   fileNameString := "system" |} in
  let mft := {| fullPathString := "c:\$mft"; fileNameString := "$mft" |} in
  let software := {| fullPathString := "c:\windows\system32\config\software";
                     fileNameString := "software" |} in
  let st := {| exportList_mem := [reqSystem; reqMft; reqSoftware];
               searchTerms_mem := [system; mft; software];
               openVolumes := [3]; trace := [EvGetHandle "c"] |} in
  (parseMFTRecord0 labWorld v = Ok {| DataRuns := [mftRun] |} /\
   exists t, t ∈ searchTerms_mem st /\ fileNameString t = "$mft") /\
  walkedTerms (trace (getFiles labWorld v st).1) = [[system; software]] /\
  exists l1 t l2 walked,
    searchTerms_mem st = l1 ++ t :: l2 /\
    Forall notMft l1 /\
    fileNameString t = "$mft" /\
    walkedTerms (trace (getFiles labWorld v st).1)
      = walkedTerms (trace st) ++ [walked] /\
    walked ≡ₚ l1 ++ l2 /\
    (Forall notMft walked <-> Forall notMft l2).
Proof.
  intros v system mft software st.
  assert (H1 : parseMFTRecord0 labWorld v = Ok {| DataRuns := [mftRun] |})
    by reflexivity.
  assert (H2 : exists t, t ∈ searchTerms_mem st /\ fileNameString t = "$mft").
  { exists mft. split; [|reflexivity].
    apply list_elem_of_further, list_elem_of_here. }
  split; [by split|]. split; [reflexivity|].
  exact (getFiles_deletes_first_mft_term_only labWorld v st _ H1 H2).
Defined.

(** C7, counterexample.  Two requests name a file [$MFT]; both search
    terms are named [$mft]; the loop deletes the first, and the walk is
    handed the second. *)
Lemma walk_still_sees_mft_term :
  let mft := {| fullPathString := "c:\$mft"; fileNameString := "$mft" |} in
  let copy := {| fullPathString := "c:\backup\$mft"; fileNameString := "$mft" |} in
  setupSearchTerms labWorld [reqMft; reqMftCopy] = Ok [mft; copy] /\
  (exists t, t ∈ [mft; copy] /\ fileNameString t = "$mft") /\
  deleteMftTerm [mft; copy] = (true, [copy; copy], [copy]) /\
  walkedTerms (trace (Collect labWorld [reqMft; reqMftCopy]).1) = [[copy]] /\
  (Collect labWorld [reqMft; reqMftCopy]).2 = Ok tt /\
  ~ Forall notMft [copy].
Proof.
  intros mft copy.
  split; [reflexivity|]. split.
  { exists mft. split; [apply list_elem_of_here | reflexivity]. }
  split; [reflexivity|]. split; [reflexivity|]. split; [reflexivity|].
  intros H. apply Forall_cons in H as [H _]. by apply H.
Qed.

(** ** C8: the volumes of interest *)

(** C8.  With [strings.ToLower] lowering a leading ASCII byte by itself
    and [unicode.IsLetter] holding of the ASCII letters: for every
    export list whose paths start with one drive letter and a colon,
    [identifyVolumesOfInterest] returns without error the lower-case
    drive letters of the requests, each exactly once. *)
Theorem identifyVolumesOfInterest_distinct (w : World)
    (exportList : list FileToExport) :
  (forall c s, (code c <? 0x80) = true ->
     strings_ToLower w (String c s) = String (lowerASCII c) (strings_ToLower w s)) ->
  (forall c, isASCIILetter c = true -> unicode_IsLetter w (code c) = true) ->
  Forall startsWithDrive exportList ->
  exists vols,
    identifyVolumesOfInterest w exportList = Ok vols /\
    NoDup vols /\
    forall v, v ∈ vols <-> exists e, e ∈ exportList /\ v = driveOf e.
Proof.
  intros Hlow Hlet Hall.
  assert (Hvol : Forall (fun e => volumeOf w e = driveOf e /\
                                  isLetter w (driveOf e) = Ok true) exportList).
  { eapply Forall_impl; [exact Hall|]. intros e (d & rest & Hp & Hd).
    destruct (lowerASCII_letter d Hd) as (Hl & Hd128 & Hl128 & Hcolon).
    unfold volumeOf, driveOf. rewrite Hp.
    rewrite (Hlow d _ Hd128), (Hlow ":"%char rest eq_refl), lowerASCII_colon.
    unfold re_FindString. simpl. rewrite decide_False by done. simpl.
    rewrite decide_False by done. simpl. split; [done|].
    unfold runeOfByte. rewrite Hl128. by rewrite Hlet. }
  destruct (identifyVolumes_ok w exportList []) as [vols Hvols].
  { eapply Forall_impl; [exact Hvol|]. by intros e [-> ->]. }
  exists vols. split; [exact Hvols|].
  split; [by apply (identifyVolumesOfInterest_NoDup w exportList)|].
  intros v. rewrite (identifyVolumes_elem w _ _ _ v Hvols).
  rewrite Forall_forall in Hvol. split.
  - intros [Hin|(e & He & ->)]; [by apply elem_of_nil in Hin|].
    exists e. split; [done|]. by apply Hvol.
  - intros (e & He & ->). right. exists e. split; [done|].
    symmetry. by apply Hvol.
Qed.

(** C8, witness: requests on [C:], [c:], [D:] and [d:]. *)
Lemma identifyVolumesOfInterest_distinct_witness :
  let exportList := [reqMft; reqSoftware; reqOn "D"; reqOn "d"] in
  Forall startsWithDrive exportList /\
  identifyVolumesOfInterest labWorld exportList = Ok ["c"; "d"] /\
  exists vols,
    identifyVolumesOfInterest labWorld exportList = Ok vols /\
    NoDup vols /\
    forall v, v ∈ vols <-> exists e, e ∈ exportList /\ v = driveOf e.
Proof.
  intros exportList.
  assert (H : Forall startsWithDrive exportList).
  { repeat apply Forall_cons_2; [| | | | apply Forall_nil_2];
      eexists _, _; split; reflexivity. }
  split; [exact H|]. split; [reflexivity|].
  exact (identifyVolumesOfInterest_distinct labWorld exportList
           (fun c s _ => eq_refl) (fun c Hc => Hc) H).
Defined.

(** ** C9: the access requested for the volume *)

(** C9.  The call that [GetHandle] makes: the desired access is
    [0x80000000], which is [GENERIC_READ] and holds no bit of
    [FILE_READ_ATTRIBUTES] ([0x80], the right named in the comment of
    the source); the share mode is
    [FILE_SHARE_READ | FILE_SHARE_WRITE]. *)
Theorem GetHandle_requests_generic_read
    (syscall_CreateFile : CreateFileCall -> result Z) (volumeLetter : string) :
  GetHandle syscall_CreateFile volumeLetter =
    match syscall_CreateFile
            {| lpFileName := UTF16PtrFromString ("\\.\" +:+ volumeLetter +:+ ":");
               dwDesiredAccess := GENERIC_READ;
               dwShareMode := Z.lor FILE_SHARE_READ FILE_SHARE_WRITE;
               dwCreationDisposition := OPEN_EXISTING;
               dwFlagsAndAttributes := 0;
               hTemplateFile := 0 |} with
    | Err err => Err (wrapError ("getHandle() failed to get handle to volume "
                                   +:+ volumeLetter +:+ ": ") err)
    | Ok syscallHandle => Ok syscallHandle
    end /\
  dwDesiredAccess (GetHandle_call volumeLetter) = 0x80000000 /\
  dwDesiredAccess (GetHandle_call volumeLetter) <> FILE_READ_ATTRIBUTES /\
  Z.land (dwDesiredAccess (GetHandle_call volumeLetter)) FILE_READ_ATTRIBUTES = 0 /\
  Z.land (dwDesiredAccess (GetHandle_call volumeLetter)) GENERIC_READ = GENERIC_READ.
Proof.
  split; [reflexivity|]. split; [reflexivity|].
  split; [|split; reflexivity].
  intros H. vm_compute in H. discriminate H.
Qed.

(** ** C10: the export list after the call *)

Lemma resolveEnv_reached w l :
  (resolveEnv w l).1 = map (expanded w) (take (reached w l) l) ++ drop (reached w l) l.
Proof.
  induction l as [|e rest IH]; [reflexivity|].
  simpl. unfold expanded in *.
  destruct (registry_ExpandString w (FullPath e)) as [s [err|]] eqn:E;
    simpl; rewrite E; simpl.
  - by rewrite drop_0.
  - destruct (resolveEnv w rest) as [rest' r]. simpl in *. by rewrite IH.
Qed.

Lemma Collect_export w exportList :
  exportList_mem (Collect w exportList).1 = (resolveEnv w exportList).1.
Proof.
  rewrite Collect_unfold. simpl.
  destruct (resolveEnv w exportList).2; [done|].
  destruct (identifyVolumesOfInterest w _); [|done].
  destruct (setupSearchTerms w _); [|done].
  by rewrite forVolumes_export.
Qed.

(** C10.  [Collect] writes into the list it is given.  When it returns,
    the fields other than [FullPath] of every entry are as before, and
    the [FullPath] of every entry that the loop of [resolveEnv] reached
    holds the string that [ExpandString] returned for it; when no
    expansion fails that is every entry of the list. *)
Theorem Collect_expands_export_list_in_place (w : World)
    (exportList : list FileToExport) :
  let after := exportList_mem (Collect w exportList).1 in
  let n := reached w exportList in
  map otherFields after = map otherFields exportList /\
  after = map (expanded w) (take n exportList) ++ drop n exportList /\
  (Forall (fun e => ~ expansionFails w e) exportList ->
   after = map (expanded w) exportList /\
   map FullPath after
     = map (fun e => (registry_ExpandString w (FullPath e)).1) exportList).
Proof.
  intros after n. subst after n. rewrite Collect_export.
  split; [apply resolveEnv_frame|]. split; [apply resolveEnv_reached|].
  intros Hall.
  assert (Hok : (resolveEnv w exportList).2 = None).
  { destruct (resolveEnv w exportList).2 as [err|] eqn:E; [|done].
    assert (Hne : (resolveEnv w exportList).2 ≠ None) by (by rewrite E).
    apply resolveEnv_fails in Hne. apply Exists_exists in Hne as (e & He & Hf).
    rewrite Forall_forall in Hall. by destruct (Hall e He). }
  rewrite (resolveEnv_ok w exportList Hok). split; [done|].
  rewrite map_map. reflexivity.
Qed.

(** C10, witness: a request with the system-drive placeholder and a
    request without. *)
Lemma Collect_expands_export_list_in_place_witness :
  let exportList := [reqSystem; reqMft] in
  let after := exportList_mem (Collect labWorld exportList).1 in
  Forall (fun e => ~ expansionFails labWorld e) exportList /\
  map FullPath after = ["C:\Windows\System32\config\SYSTEM"; "C:\$MFT"] /\
  map otherFields after = map otherFields exportList /\
  after = map (expanded labWorld) exportList.
Proof.
  intros exportList after.
  assert (H : Forall (fun e => ~ expansionFails labWorld e) exportList).
  { repeat apply Forall_cons_2; [| | apply Forall_nil_2];
      unfold expansionFails; simpl; intros Hf; by apply Hf. }
  split; [exact H|]. split; [reflexivity|].
  destruct (Collect_expands_export_list_in_place labWorld exportList)
    as (Hframe & _ & Hexp).
  split; [exact Hframe|]. exact (proj1 (Hexp H)).
Defined.

(** * Further properties *)

(** ** Projections of a trace *)

Lemma openedVolumes_app tr1 tr2 :
  openedVolumes (tr1 ++ tr2) = openedVolumes tr1 ++ openedVolumes tr2.
Proof. apply flat_map_app. Qed.

Lemma syncEvents_app tr1 tr2 :
  syncEvents (tr1 ++ tr2) = syncEvents tr1 ++ syncEvents tr2.
Proof. apply flat_map_app. Qed.

Lemma mftCopies_app tr1 tr2 :
  mftCopies (tr1 ++ tr2) = mftCopies tr1 ++ mftCopies tr2.
Proof. apply flat_map_app. Qed.

Lemma projections_of_sends w v files :
  openedVolumes (map (fun file => EvSend (entryFor w v file)) files) = [] /\
  syncEvents (map (fun file => EvSend (entryFor w v file)) files) = [] /\
  mftCopies (map (fun file => EvSend (entryFor w v file)) files) = [].
Proof.
  induction files as [|file files (IH1 & IH2 & IH3)]; [done|].
  simpl. rewrite IH1, IH2, IH3. repeat split.
  unfold readerFor. by destruct (apiFileReader w file).
Qed.

(** ** The run of [getFiles], case by case *)

Lemma sendFoundFiles_state w v files st :
  sendFoundFiles w v files st
  = (logged st (map (fun file => EvSend (entryFor w v file)) files), Ok tt).
Proof.
  revert st. induction files as [|file rest IH]; intros st; simpl.
  - unfold logged. rewrite app_nil_r. by destruct st.
  - rewrite run_bind. simpl. rewrite IH. unfold logged, entryFor. simpl.
    by rewrite <- app_assoc.
Qed.

Lemma getFiles_getFilesRun w v st : getFiles w v st = getFilesRun w v st.
Proof.
  unfold getFiles, getFilesRun, walkHandler, mftReaderOf, deleteMftTermM,
    walk, closePipe, logged, withTerms.
  runM. destruct (parseMFTRecord0 w v) as [rec0|e]; simpl; [|done].
  destruct (deleteMftTerm (searchTerms_mem st)) as [[copy mem] terms]. simpl.
  destruct copy; simpl.
  - destruct (findPossibleMatches w _ terms) as [[pm dt]|e]; simpl.
    + destruct (pipeWriter_Close w) as [e|]; simpl.
      * by rewrite <- !app_assoc.
      * rewrite sendFoundFiles_state. unfold logged. simpl.
        by rewrite <- !app_assoc.
    + by rewrite <- !app_assoc.
  - destruct (findPossibleMatches w _ terms) as [[pm dt]|e]; simpl.
    + rewrite sendFoundFiles_state. unfold logged. simpl.
      by rewrite <- !app_assoc.
    + by rewrite <- !app_assoc.
Qed.

(** ** The requests that [main] builds *)

Lemma strings_Contains_byte s c :
  strings_Contains s (String c EmptyString) = true <-> c ∈ list_ascii_of_string s.
Proof.
  induction s as [|a s IH]; simpl.
  - split; [discriminate | by intros H; apply elem_of_nil in H].
  - rewrite elem_of_cons, orb_true_iff, IH.
    destruct (ascii_dec c a) as [->|Hne].
    + split; [by left | by left; destruct s].
    + split; intros [H|H]; try (by right); done.
Qed.

Lemma strings_Contains_same s1 s2 c :
  (c ∈ list_ascii_of_string s1 <-> c ∈ list_ascii_of_string s2) ->
  strings_Contains s1 (String c EmptyString)
  = strings_Contains s2 (String c EmptyString).
Proof.
  intros H. apply eq_true_iff_eq. by rewrite !strings_Contains_byte.
Qed.

(** X1.  The export list that [main] builds depends only on which of the
    letters [a], [m], [r], [u], [e], [w] occur in the option: their
    order, their repetition and any other byte change nothing. *)
Theorem gatherList_letters_only (s1 s2 : string) :
  (forall c, c ∈ gatherLetters ->
     (c ∈ list_ascii_of_string s1 <-> c ∈ list_ascii_of_string s2)) ->
  gatherList s1 = gatherList s2.
Proof.
  intros H. unfold gatherList.
  rewrite (strings_Contains_same s1 s2 "a"), (strings_Contains_same s1 s2 "m"),
    (strings_Contains_same s1 s2 "r"), (strings_Contains_same s1 s2 "u"),
    (strings_Contains_same s1 s2 "e"), (strings_Contains_same s1 s2 "w");
    [reflexivity | ..]; apply H; unfold gatherLetters;
    repeat first [apply list_elem_of_here | apply list_elem_of_further].
Qed.

(** X1, witness: the letters of [mrue] in another order, with a
    repetition and a foreign byte. *)
Lemma gatherList_letters_only_witness :
  (forall c, c ∈ gatherLetters ->
     (c ∈ list_ascii_of_string "mrue" <-> c ∈ list_ascii_of_string "eeurmx")) /\
  gatherList "mrue" = gatherList "eeurmx".
Proof.
  assert (H : forall c, c ∈ gatherLetters ->
     (c ∈ list_ascii_of_string "mrue" <-> c ∈ list_ascii_of_string "eeurmx")).
  { apply Forall_forall. apply (bool_decide_unpack _). vm_compute. exact I. }
  split; [exact H|]. exact (gatherList_letters_only "mrue" "eeurmx" H).
Defined.

(** X2.  Whatever the option, every request that [main] builds lies
    under the placeholder of the system drive, its file name is the last
    component of its path, and a file name is a pattern only where the
    path is one. *)
Theorem gatherList_requests_well_formed (s : string) :
  Forall (fun e => onSystemDrive e = true /\
                   namesItsFile e = true /\
                   (IsFileNameRegex e = true -> IsFullPathRegex e = true))
         (gatherList s).
Proof.
  unfold gatherList.
  destruct (strings_Contains s "a"), (strings_Contains s "m"),
    (strings_Contains s "r"), (strings_Contains s "u"),
    (strings_Contains s "e"), (strings_Contains s "w"); simpl;
    repeat (apply Forall_cons_2; [repeat split; try reflexivity; done|]);
    apply Forall_nil_2.
Qed.

(** X3.  The list of [a] cannot be had by letters: a list built without
    [a] never holds the event-log request of [a], whose file name is the
    pattern [.*\.evtx$]; its own event-log request has the pattern
    [.*\\.evtx$], which the list of [a] does not hold. *)
Theorem gatherList_all_differs (s : string) :
  strings_Contains s "a" = false ->
  (forall e, e ∈ gatherList s -> FileName e ≠ ".*\.evtx$") /\
  (forall e, e ∈ gatherList "a" -> FileName e ≠ ".*\\.evtx$") /\
  gatherList s ≠ gatherList "a".
Proof.
  intros Ha.
  assert (H1 : forall e, e ∈ gatherList s -> FileName e ≠ ".*\.evtx$").
  { unfold gatherList. rewrite Ha.
    destruct (strings_Contains s "m"), (strings_Contains s "r"),
      (strings_Contains s "u"), (strings_Contains s "e"),
      (strings_Contains s "w"); simpl; intros e He;
      repeat (apply elem_of_cons in He as [->|He]; [discriminate|]);
      by apply elem_of_nil in He. }
  split; [exact H1|]. split.
  - intros e He. change (gatherList "a") with
      [wantMft; wantSystem; wantSoftware; wantEvtxOfAll;
       wantNtuser; wantUsrclass; wantWebCache] in He.
    repeat (apply elem_of_cons in He as [->|He]; [discriminate|]).
    by apply elem_of_nil in He.
  - intros Heq. apply (H1 wantEvtxOfAll); [|reflexivity].
    rewrite Heq. vm_compute. do 3 apply list_elem_of_further. apply list_elem_of_here.
Qed.

(** X3, witness: every letter but [a]. *)
Lemma gatherList_all_differs_witness :
  strings_Contains "mruew" "a" = false /\
  (forall e, e ∈ gatherList "mruew" -> FileName e ≠ ".*\.evtx$") /\
  (forall e, e ∈ gatherList "a" -> FileName e ≠ ".*\\.evtx$") /\
  gatherList "mruew" ≠ gatherList "a".
Proof.
  split; [reflexivity|]. exact (gatherList_all_differs "mruew" eq_refl).
Defined.

(** Every request of [main] is one of nine. *)
Lemma gatherList_known s e :
  e ∈ gatherList s ->
  e ∈ [wantMft; wantSystem; wantSoftware; wantEvtxOfAll; wantEvtx;
       wantNtuser; wantUsrclass; wantWebCache].
Proof.
  unfold gatherList.
  destruct (strings_Contains s "a"), (strings_Contains s "m"),
    (strings_Contains s "r"), (strings_Contains s "u"),
    (strings_Contains s "e"), (strings_Contains s "w"); simpl; intros He;
    repeat (apply elem_of_cons in He as [->|He];
            [repeat first [apply list_elem_of_here | apply list_elem_of_further]|]);
    by apply elem_of_nil in He.
Qed.

(** The volume read off a path that starts with an ASCII letter and a
    colon. *)
Lemma volumeOf_drive (w : World) (e : FileToExport) d rest :
  (forall c s, (code c <? 0x80) = true ->
     strings_ToLower w (String c s) = String (lowerASCII c) (strings_ToLower w s)) ->
  (forall c, isASCIILetter c = true -> unicode_IsLetter w (code c) = true) ->
  FullPath e = String d (String ":" rest) ->
  isASCIILetter d = true ->
  volumeOf w e = String (lowerASCII d) EmptyString /\
  isLetter w (String (lowerASCII d) EmptyString) = Ok true.
Proof.
  intros Hlow Hlet Hp Hd.
  destruct (lowerASCII_letter d Hd) as (Hl & Hd128 & Hl128 & Hcolon).
  unfold volumeOf. rewrite Hp.
  rewrite (Hlow d _ Hd128), (Hlow ":"%char rest eq_refl), lowerASCII_colon.
  unfold re_FindString. simpl. rewrite decide_False by done. simpl.
  rewrite decide_False by done. simpl. split; [done|].
  unfold runeOfByte. rewrite Hl128. by rewrite Hlet.
Qed.

(** Requests that all name one volume give that volume, once. *)
Lemma identifyVolumes_same (w : World) v l acc :
  Forall (fun e => volumeOf w e = v) l ->
  isLetter w v = Ok true ->
  identifyVolumes w acc l
  = Ok (match l with
        | [] => acc
        | _ :: _ => if bool_decide (v ∈ acc) then acc else acc ++ [v]
        end).
Proof.
  intros Hall Hv. revert acc.
  induction Hall as [|e rest He Hrest IH]; intros acc; [done|].
  simpl. fold (volumeOf w e). rewrite He, Hv.
  case_bool_decide as Hin.
  - rewrite IH. destruct rest; [done|]. by rewrite bool_decide_true.
  - rewrite IH. destruct rest; [done|].
    rewrite bool_decide_true; [done|]. apply elem_of_app. right. by left.
Qed.

(** X4.  With the placeholder of the system drive expanding to [d:],
    whatever the option: the expansion of the list of [main] does not
    fail, every expanded path starts with [d::\], the drive letter
    followed by two colons, and the volumes of interest are the one
    volume [d], in lower case (none for the empty list). *)
Theorem gatherList_single_volume (w : World) (d : ascii) (s : string) :
  isASCIILetter d = true ->
  systemDriveIs w d ->
  (forall c s, (code c <? 0x80) = true ->
     strings_ToLower w (String c s) = String (lowerASCII c) (strings_ToLower w s)) ->
  (forall c, isASCIILetter c = true -> unicode_IsLetter w (code c) = true) ->
  (resolveEnv w (gatherList s)).2 = None /\
  Forall (fun e => String.prefix (String d "::\") (FullPath e) = true)
         (resolveEnv w (gatherList s)).1 /\
  identifyVolumesOfInterest w (resolveEnv w (gatherList s)).1
  = Ok (match gatherList s with
        | [] => []
        | _ :: _ => [String (lowerASCII d) EmptyString]
        end).
Proof.
  intros Hd Hsys Hlow Hlet.
  assert (Hok : (resolveEnv w (gatherList s)).2 = None).
  { destruct (resolveEnv w (gatherList s)).2 as [err|] eqn:E; [|done].
    assert (Hne : (resolveEnv w (gatherList s)).2 ≠ None) by (by rewrite E).
    apply resolveEnv_fails in Hne. apply Exists_exists in Hne as (e & He & Hf).
    unfold expansionFails in Hf. by rewrite (Hsys s e He) in Hf. }
  split; [exact Hok|].
  rewrite (resolveEnv_ok w _ Hok).
  assert (Hpath : Forall (fun e => exists rest,
              FullPath (expanded w e) = String d (String ":" (String ":" (String "\" rest))))
            (gatherList s)).
  { apply Forall_forall. intros e He. unfold expanded.
    rewrite (Hsys s e He). simpl.
    apply gatherList_known in He.
    repeat (apply elem_of_cons in He as [->|He]; [by eexists|]).
    by apply elem_of_nil in He. }
  split.
  - rewrite Forall_map. eapply Forall_impl; [exact Hpath|].
    intros e [rest ->]. simpl.
    destruct (ascii_dec d d) as [_|Hn]; [by destruct rest | by destruct Hn].
  - unfold identifyVolumesOfInterest.
    rewrite (identifyVolumes_same w (String (lowerASCII d) EmptyString)).
    + by destruct (gatherList s).
    + rewrite Forall_map. eapply Forall_impl; [exact Hpath|].
      intros e [rest Hp]. simpl.
      by destruct (volumeOf_drive w (expanded w e) d _ Hlow Hlet Hp Hd).
    + by destruct (volumeOf_drive w (expanded w wantMft) d
                     (String ":" (String "\" "$MFT")) Hlow Hlet) as [_ ?];
        [unfold expanded; rewrite (Hsys "m" wantMft); [reflexivity|];
         apply list_elem_of_here | exact Hd |].
Qed.

(** On the first test double the placeholder expands to [C:]. *)
Lemma labWorld_systemDrive : systemDriveIs labWorld "C".
Proof.
  intros s e He. apply gatherList_known in He.
  repeat (apply elem_of_cons in He as [->|He]; [reflexivity|]).
  by apply elem_of_nil in He.
Qed.

(** X4, witness: the first test double and the option [mr]. *)
Lemma gatherList_single_volume_witness :
  (isASCIILetter "C" = true /\ systemDriveIs labWorld "C") /\
  map FullPath (resolveEnv labWorld (gatherList "mr")).1
    = ["C::\$MFT"; "C::\Windows\System32\config\SYSTEM";
       "C::\Windows\System32\config\SOFTWARE"] /\
  (resolveEnv labWorld (gatherList "mr")).2 = None /\
  Forall (fun e => String.prefix "C::\" (FullPath e) = true)
         (resolveEnv labWorld (gatherList "mr")).1 /\
  identifyVolumesOfInterest labWorld (resolveEnv labWorld (gatherList "mr")).1
  = Ok ["c"].
Proof.
  split; [split; [reflexivity | exact labWorld_systemDrive]|].
  split; [reflexivity|].
  exact (gatherList_single_volume labWorld "C" "mr" eq_refl labWorld_systemDrive
           (fun c s _ => eq_refl) (fun c Hc => Hc)).
Defined.

(** ** The error of [resolveEnv] *)

(** X5.  When [resolveEnv] returns an error, it is the error of the first
    request whose expansion fails: the requests before it are expanded,
    the requests behind it are untouched, its own path has been
    overwritten with the string that came back with the error, and the
    message of the error quotes that string, not the path that was
    asked for. *)
Theorem resolveEnv_error_quotes_overwritten_path (w : World)
    (exportList : list FileToExport) (err : error) :
  (resolveEnv w exportList).2 = Some err ->
  exists before e behind s cause,
    exportList = before ++ e :: behind /\
    Forall (fun x => ~ expansionFails w x) before /\
    registry_ExpandString w (FullPath e) = (s, Some cause) /\
    err = wrapError ("resolving environment variables from " +:+ s +:+ ": ") cause /\
    (resolveEnv w exportList).1
      = map (expanded w) before ++ setFullPath e s :: behind.
Proof.
  revert err. induction exportList as [|x rest IH]; intros err; simpl; [done|].
  destruct (registry_ExpandString w (FullPath x)) as [s [cause|]] eqn:E; simpl.
  - intros [= <-]. exists [], x, rest, s, cause. by repeat split.
  - destruct (resolveEnv w rest) as [rest' r] eqn:Er. simpl in *.
    intros ->. destruct (IH err eq_refl)
      as (before & e & behind & s' & cause & -> & Hb & He & -> & Hrest).
    exists (x :: before), e, behind, s', cause. repeat split; [|done|].
    + apply Forall_cons_2; [|done]. unfold expansionFails. rewrite E.
      intros H. by apply H.
    + simpl. unfold expanded at 1. by rewrite E, Hrest.
Qed.

(** X5, witness: a request with the placeholder, then the request with a
    NUL byte, then the request for the MFT. *)
Lemma resolveEnv_error_quotes_overwritten_path_witness :
  let err := wrapError "resolving environment variables from : "
               (errorString "invalid argument") in
  (resolveEnv labWorld [reqSystem; reqBad; reqMft]).2 = Some err /\
  exists before e behind s cause,
    [reqSystem; reqBad; reqMft] = before ++ e :: behind /\
    Forall (fun x => ~ expansionFails labWorld x) before /\
    registry_ExpandString labWorld (FullPath e) = (s, Some cause) /\
    err = wrapError ("resolving environment variables from " +:+ s +:+ ": ") cause /\
    (resolveEnv labWorld [reqSystem; reqBad; reqMft]).1
      = map (expanded labWorld) before ++ setFullPath e s :: behind.
Proof.
  intros err. split; [reflexivity|].
  exact (resolveEnv_error_quotes_overwritten_path labWorld
           [reqSystem; reqBad; reqMft] err eq_refl).
Defined.

(** ** The errors and the order of [identifyVolumesOfInterest] *)

Lemma identifyVolumes_isErr (w : World) l acc :
  isErr (identifyVolumes w acc l) = true
  <-> Exists (fun e => isLetter w (volumeOf w e) ≠ Ok true) l.
Proof.
  revert acc. induction l as [|e rest IH]; intros acc; simpl.
  - split; [discriminate | by inversion 1].
  - fold (volumeOf w e). rewrite Exists_cons.
    destruct (isLetter w (volumeOf w e)) as [[]|err] eqn:E.
    + case_bool_decide; rewrite IH; (split; [by right | by intros [?|?]]).
    + split; [by left | done].
    + split; [by left | done].
Qed.

(** X6.  [identifyVolumesOfInterest] returns an error exactly when, for
    some request, what stands before the first colon of the lowered path
    (leading colons skipped) is not a single byte that is a letter: it
    is empty, or longer than one byte, or not a letter. *)
Theorem identifyVolumesOfInterest_error_iff (w : World)
    (exportList : list FileToExport) :
  isErr (identifyVolumesOfInterest w exportList) = true
  <-> Exists (fun e =>
        match volumeOf w e with
        | String c EmptyString => unicode_IsLetter w (runeOfByte c) = false
        | _ => True
        end) exportList.
Proof.
  unfold identifyVolumesOfInterest. rewrite identifyVolumes_isErr.
  apply Exists_proper; [|done]. intros e.
  destruct (volumeOf w e) as [|c [|c' s]]; simpl; [done| |done].
  destruct (unicode_IsLetter w (runeOfByte c)); split; congruence.
Qed.

Lemma filter_iff {A} (P Q : A -> Prop) `{!forall x, Decision (P x)}
    `{!forall x, Decision (Q x)} (l : list A) :
  (forall x, x ∈ l -> (P x <-> Q x)) -> filter P l = filter Q l.
Proof.
  induction l as [|a l IH]; intros Hpq; [done|].
  assert (Hl : forall x, x ∈ l -> (P x <-> Q x))
    by (intros x Hx; apply Hpq; by right).
  destruct (decide (P a)) as [Ha|Ha].
  - rewrite !filter_cons_True; [by rewrite IH|apply Hpq; [by left|done]|done].
  - rewrite !filter_cons_False; [by apply IH| |done].
    intros Hq. apply Ha, Hpq; [by left|done].
Qed.

Lemma filter_all {A} (P : A -> Prop) `{!forall x, Decision (P x)} (l : list A) :
  (forall x, x ∈ l -> P x) -> filter P l = l.
Proof.
  induction l as [|a l IH]; intros Hp; [done|].
  rewrite filter_cons_True by (apply Hp; by left).
  f_equal. apply IH. intros x Hx. apply Hp. by right.
Qed.

Lemma filter_not_in_seen (seen : list string) (x : string) (l : list string) :
  filter (fun y => y ∉ seen ++ [x]) l
  = filter (fun y => y ∉ seen) (filter (fun y => y ≠ x) l).
Proof.
  rewrite list_filter_filter. apply filter_iff. intros y _.
  rewrite elem_of_app, list_elem_of_singleton. tauto.
Qed.

Lemma identifyVolumes_firstOccurrences (w : World) l acc vols :
  identifyVolumes w acc l = Ok vols ->
  vols = acc ++ filter (fun y => y ∉ acc)
                  (firstOccurrences (map (volumeOf w) l)).
Proof.
  revert acc. induction l as [|e rest IH]; intros acc; simpl.
  - intros [= <-]. by rewrite app_nil_r.
  - fold (volumeOf w e). destruct (isLetter w (volumeOf w e)) as [[]|]; [|done|done].
    case_bool_decide as Hin; intros H; rewrite (IH _ H).
    + rewrite filter_cons_False by (by intros Hn).
      f_equal. rewrite list_filter_filter. apply filter_iff.
      intros y _. split; [|tauto]. intros Hy. split; [done|]. by intros ->.
    + rewrite filter_cons_True by done.
      rewrite <- app_assoc. simpl. f_equal. f_equal. apply filter_not_in_seen.
Qed.

(** X7.  When [identifyVolumesOfInterest] returns a list, it is the list
    of the volumes of the requests in the order of their first
    occurrence, and each of them is a single byte. *)
Theorem identifyVolumesOfInterest_first_occurrences (w : World)
    (exportList : list FileToExport) (vols : list string) :
  identifyVolumesOfInterest w exportList = Ok vols ->
  vols = firstOccurrences (map (volumeOf w) exportList) /\
  Forall (fun v => String.length v = 1%nat) vols.
Proof.
  intros H. split.
  - rewrite (identifyVolumes_firstOccurrences w _ _ _ H). simpl.
    apply filter_all. intros y _. apply not_elem_of_nil.
  - apply Forall_forall. intros v Hv.
    apply (identifyVolumes_elem w _ _ _ v H) in Hv as [Hv|(e & He & ->)];
      [by apply elem_of_nil in Hv|].
    assert (Hnot : ~ Exists (fun e => isLetter w (volumeOf w e) ≠ Ok true) exportList).
    { rewrite <- identifyVolumes_isErr. unfold identifyVolumesOfInterest in H.
      by rewrite H. }
    rewrite <- Forall_Exists_neg, Forall_forall in Hnot.
    specialize (Hnot e He). simpl in Hnot.
    destruct (volumeOf w e) as [|c [|c' s]]; simpl in *; [|done|];
      by destruct Hnot.
Qed.

(** X7, witness: requests on [D:], [c:], [d:], [C:] and [e:]. *)
Lemma identifyVolumesOfInterest_first_occurrences_witness :
  let exportList := [reqOn "D"; reqSoftware; reqOn "d"; reqMft; reqOn "e"] in
  identifyVolumesOfInterest labWorld exportList = Ok ["d"; "c"; "e"] /\
  ["d"; "c"; "e"] = firstOccurrences (map (volumeOf labWorld) exportList) /\
  Forall (fun v => String.length v = 1%nat) ["d"; "c"; "e"].
Proof.
  intros exportList. split; [reflexivity|].
  exact (identifyVolumesOfInterest_first_occurrences labWorld exportList
           ["d"; "c"; "e"] eq_refl).
Defined.

(** ** One turn of the loop of [Collect], event by event *)

Lemma GetVolumeHandler_cases (w : World) v st :
  (exists e, GetVolumeHandler w v st
             = (extend st (descriptorOf w v) [EvGetHandle v], Err e)) \/
  (exists h vbr,
     handler_GetHandle w v = Ok h /\
     GetVolumeHandler w v st
     = (extend st [h] [EvGetHandle v],
        Ok {| Handle := h; VolumeLetter := v; Vbr := vbr;
              mftReader := None; lastReadVolumeOffset := 0 |})).
Proof.
  unfold GetVolumeHandler, extend, descriptorOf. runM.
  destruct (handler_GetHandle w v) as [h|e]; simpl.
  - destruct (File_Read w h volumeBootRecordSize) as [b|e]; simpl;
      [|left; by eexists].
    destruct (vbr_Parse w b) as [vbr|e]; simpl;
      [right; by exists h, vbr | left; by eexists].
  - left. eexists. by rewrite app_nil_r.
Qed.

(** Projects the traces of a goal onto the events of one kind. *)
Ltac project_trace :=
  unfold openedVolumes, syncEvents, mftCopies, walkedTerms in *;
  repeat (progress (rewrite ?flat_map_app; simpl)).

Lemma getFilesRun_summary (w : World) v st :
  exportList_mem (getFilesRun w v st).1 = exportList_mem st /\
  openVolumes (getFilesRun w v st).1 = openVolumes st /\
  openedVolumes (trace (getFilesRun w v st).1) = openedVolumes (trace st) /\
  syncEvents (trace (getFilesRun w v st).1)
    = syncEvents (trace st) ++
      EvGo (VolumeLetter v) ::
        (if isErr (getFilesRun w v st).2 then [] else [EvCloseChan; EvWait]).
Proof.
  unfold getFilesRun.
  destruct (deleteMftTerm (searchTerms_mem st)) as [[copy mem] terms]. simpl.
  destruct (parseMFTRecord0 w v) as [rec0|e]; simpl;
    [destruct (findPossibleMatches w _ _) as [[pm dt]|e]; simpl;
       [pose proof (projections_of_sends w v (confirmFoundFiles w terms pm dt))
          as (H1 & H2 & _);
        destruct copy; simpl;
          [destruct (pipeWriter_Close w) as [e|]; simpl|]
       |destruct copy]|];
    project_trace; rewrite ?H1, ?H2; simpl; by rewrite ?app_nil_r.
Qed.

Lemma walkedWith_refl st : walkedWith st st (searchTerms_mem st) [] [].
Proof. unfold walkedWith. by rewrite !app_nil_r. Qed.

Lemma walkedWith_trans st st1 st2 mem1 mem2 c1 c2 w1 w2 :
  walkedWith st st1 mem1 c1 w1 -> walkedWith st1 st2 mem2 c2 w2 ->
  walkedWith st st2 mem2 (c1 ++ c2) (w1 ++ w2).
Proof.
  intros (_ & Hc1 & Hw1) (Hm & Hc2 & Hw2). unfold walkedWith.
  by rewrite Hm, Hc2, Hw2, Hc1, Hw1, !app_assoc.
Qed.

(** Either record 0 does not parse and nothing is touched, or the
    deletion loop has run, the copy of the MFT has been sent if a term
    was found, and the walk has been handed the slice that is left. *)
Lemma getFilesRun_terms (w : World) v st :
  (isErr (parseMFTRecord0 w v) = true /\
   isErr (getFilesRun w v st).2 = true /\
   walkedWith st (getFilesRun w v st).1 (searchTerms_mem st) [] []) \/
  (isErr (parseMFTRecord0 w v) = false /\
   walkedWith st (getFilesRun w v st).1
     (deleteMftTerm (searchTerms_mem st)).1.2
     (if (deleteMftTerm (searchTerms_mem st)).1.1 then [mftEntry v] else [])
     [(deleteMftTerm (searchTerms_mem st)).2]).
Proof.
  unfold getFilesRun, walkedWith.
  destruct (deleteMftTerm (searchTerms_mem st)) as [[copy mem] terms]. simpl.
  destruct (parseMFTRecord0 w v) as [rec0|e]; simpl;
    [right; split; [done|];
     destruct (findPossibleMatches w _ _) as [[pm dt]|e]; simpl;
       [pose proof (projections_of_sends w v (confirmFoundFiles w terms pm dt))
          as (_ & _ & H3);
        pose proof (walkedTerms_sends w v (confirmFoundFiles w terms pm dt))
          as H4;
        destruct copy; simpl;
          [destruct (pipeWriter_Close w) as [e|]; simpl|]
       |destruct copy]
    |left; split; [done|]; split; [done|]];
    project_trace; rewrite ?H3, ?H4; simpl; by rewrite ?app_nil_r.
Qed.

Lemma oneVolume_summary (w : World) v st :
  openedVolumes (trace (oneVolume w v st).1) = openedVolumes (trace st) ++ [v] /\
  openVolumes (oneVolume w v st).1 = openVolumes st ++ descriptorOf w v /\
  match (oneVolume w v st).2 with
  | Ok _ =>
      syncEvents (trace (oneVolume w v st).1) = syncEvents (trace st) ++ served v
  | Err _ =>
      syncEvents (trace (oneVolume w v st).1) = syncEvents (trace st) \/
      syncEvents (trace (oneVolume w v st).1) = syncEvents (trace st) ++ [EvGo v]
  end.
Proof.
  rewrite oneVolume_run.
  destruct (GetVolumeHandler_cases w v st) as [[e ->]|(h & vbr & Hh & ->)].
  - simpl. rewrite openedVolumes_app, syncEvents_app. simpl.
    rewrite app_nil_r. repeat split. by left.
  - rewrite getFiles_getFilesRun.
    match goal with |- context [getFilesRun w ?vh ?s] =>
      destruct (getFilesRun_summary w vh s) as (_ & Ho & Hc & Hs);
      destruct (getFilesRun w vh s) as [st2 [[]|e]] end;
    simpl in *; rewrite Ho, Hc, Hs, openedVolumes_app, syncEvents_app; simpl;
      unfold descriptorOf; rewrite Hh, !app_nil_r; repeat split.
    by right.
Qed.

Lemma walkedWith_extend st hs v st2 mem copies walks :
  walkedWith (extend st hs [EvGetHandle v]) st2 mem copies walks ->
  walkedWith st st2 mem copies walks.
Proof.
  unfold walkedWith. simpl. rewrite mftCopies_app, walkedTerms_app. simpl.
  by rewrite !app_nil_r.
Qed.

Lemma oneVolume_terms (w : World) v st :
  match (oneVolume w v st).2 with
  | Ok _ =>
      walkedWith st (oneVolume w v st).1
        (deleteMftTerm (searchTerms_mem st)).1.2
        (if (deleteMftTerm (searchTerms_mem st)).1.1 then [mftCopyOf v] else [])
        [(deleteMftTerm (searchTerms_mem st)).2]
  | Err _ =>
      walkedWith st (oneVolume w v st).1 (searchTerms_mem st) [] [] \/
      walkedWith st (oneVolume w v st).1
        (deleteMftTerm (searchTerms_mem st)).1.2
        (if (deleteMftTerm (searchTerms_mem st)).1.1 then [mftCopyOf v] else [])
        [(deleteMftTerm (searchTerms_mem st)).2]
  end.
Proof.
  rewrite oneVolume_run.
  destruct (GetVolumeHandler_cases w v st) as [[e ->]|(h & vbr & Hh & ->)].
  - simpl. left. unfold walkedWith. simpl.
    by rewrite mftCopies_app, walkedTerms_app, !app_nil_r.
  - rewrite getFiles_getFilesRun.
    match goal with |- context [getFilesRun w ?vh ?s] =>
      destruct (getFilesRun_terms w vh s) as [(_ & He & Hw)|(_ & Hw)];
      destruct (getFilesRun w vh s) as [st2 [[]|e]] end;
    simpl in *; try done; apply walkedWith_extend in Hw;
      first [exact Hw | by left | by right].
Qed.

(** ** The volumes that a run opens, and its consumers *)

(** The loop over the volumes: the volumes [done] went through, the
    volume [cut], if any, is the one at which the loop stopped, and the
    volumes [rest] were not reached. *)
Lemma forVolumes_summary (w : World) vols st :
  exists done cut rest pending,
    vols = done ++ cut ++ rest /\
    openedVolumes (trace (forVolumes w vols st).1)
      = openedVolumes (trace st) ++ done ++ cut /\
    openVolumes (forVolumes w vols st).1
      = openVolumes st ++ flat_map (descriptorOf w) (done ++ cut) /\
    syncEvents (trace (forVolumes w vols st).1)
      = syncEvents (trace st) ++ flat_map served done ++ pending /\
    match (forVolumes w vols st).2 with
    | Ok _ => cut = [] /\ rest = [] /\ pending = []
    | Err _ => exists v, cut = [v] /\ (pending = [] \/ pending = [EvGo v])
    end.
Proof.
  revert st. induction vols as [|v vols IH]; intros st.
  - exists [], [], [], []. simpl. by rewrite !app_nil_r.
  - rewrite forVolumes_cons.
    destruct (oneVolume_summary w v st) as (Hc & Ho & Hs).
    destruct (oneVolume w v st) as [st1 [[]|e]]; simpl in Hc, Ho, Hs.
    + destruct (IH st1)
        as (done & cut & rest & pending & -> & Hc' & Ho' & Hs' & Hr).
      exists (v :: done), cut, rest, pending.
      split; [done|]. rewrite Hc', Ho', Hs', Hc, Ho, Hs. simpl.
      by rewrite <- !app_assoc.
    + simpl. destruct Hs as [Hs|Hs].
      * exists [], [v], vols, []. rewrite Hc, Ho, Hs. simpl.
        rewrite !app_nil_r. repeat split. exists v. split; [done | by left].
      * exists [], [v], vols, [EvGo v]. rewrite Hc, Ho, Hs. simpl.
        rewrite !app_nil_r. repeat split. exists v. split; [done | by right].
Qed.

Lemma identifyVolumesOfInterest_order (w : World) l vols :
  identifyVolumesOfInterest w l = Ok vols ->
  vols = firstOccurrences (map (volumeOf w) l).
Proof.
  intros H. rewrite (identifyVolumes_firstOccurrences w _ _ _ H). simpl.
  apply filter_all. intros y _. apply not_elem_of_nil.
Qed.

(** The stages of [Collect] before the loop leave the trace and the open
    descriptors empty; the loop starts from the search terms that
    [setupSearchTerms] returns. *)
Lemma Collect_stages (w : World) exportList :
  (isErr (Collect w exportList).2 = true /\
   trace (Collect w exportList).1 = [] /\
   openVolumes (Collect w exportList).1 = []) \/
  (exists vols terms,
     identifyVolumesOfInterest w (resolveEnv w exportList).1 = Ok vols /\
     setupSearchTerms w (resolveEnv w exportList).1 = Ok terms /\
     Collect w exportList =
       forVolumes w vols
         {| exportList_mem := (resolveEnv w exportList).1;
            searchTerms_mem := terms; openVolumes := []; trace := [] |}).
Proof.
  rewrite Collect_unfold. simpl.
  destruct (resolveEnv w exportList).2; [by left|].
  destruct (identifyVolumesOfInterest w _) as [vols|e]; [|by left].
  destruct (setupSearchTerms w _) as [terms|e]; [|by left].
  right. by exists vols, terms.
Qed.

(** X8.  [Collect] calls [GetHandle] at most once for a volume, in the
    order in which the volumes first occur in the expanded export list;
    when it succeeds it has called it for each of them; and the
    descriptors open when it returns are the ones these calls
    returned. *)
Theorem Collect_opens_each_volume_once (w : World)
    (exportList : list FileToExport) :
  let st := (Collect w exportList).1 in
  let vols := firstOccurrences (map (volumeOf w) (resolveEnv w exportList).1) in
  openedVolumes (trace st) `prefix_of` vols /\
  NoDup (openedVolumes (trace st)) /\
  ((Collect w exportList).2 = Ok tt -> openedVolumes (trace st) = vols) /\
  openVolumes st = flat_map (descriptorOf w) (openedVolumes (trace st)).
Proof.
  simpl.
  destruct (Collect_stages w exportList)
    as [(He & -> & ->)|(vols & terms & Hv & Ht & ->)].
  { simpl. split; [apply prefix_nil|]. split; [apply NoDup_nil_2|].
    split; [|done]. intros Hok. by rewrite Hok in He. }
  pose proof (identifyVolumesOfInterest_NoDup w _ _ Hv) as Hnd.
  rewrite <- (identifyVolumesOfInterest_order w _ _ Hv).
  match goal with |- context [forVolumes w vols ?s] =>
    destruct (forVolumes_summary w vols s)
      as (done & cut & rest & pending & -> & Hc & Ho & _ & Hr) end.
  simpl in Hc, Ho. rewrite Hc, Ho.
  split; [exists rest; by rewrite <- app_assoc|].
  split; [rewrite app_assoc in Hnd; by apply NoDup_app in Hnd as (? & _)|].
  split; [|done]. intros Hok. rewrite Hok in Hr.
  destruct Hr as (-> & -> & _). by rewrite !app_nil_r.
Qed.


(** ** The copies of the MFT *)

Lemma deleteMftTerm_found l :
  (deleteMftTerm l).1.1 = bool_decide (Exists isMft l).
Proof.
  unfold deleteMftTerm. destruct (decide (Exists isMft l)) as [H|H].
  - rewrite bool_decide_eq_true_2 by done.
    apply Exists_exists in H as (t & Hin & Ht).
    destruct (split_first_mft l) as (l1 & t' & l2 & -> & H1 & Ht');
      [by exists t|].
    by rewrite (indexOfMft_first _ _ _ 0 H1 Ht').
  - rewrite bool_decide_eq_false_2 by done.
    rewrite indexOfMft_None; [done|].
    apply Forall_forall. intros t Hin Ht. apply H, Exists_exists. by exists t.
Qed.

(** X10.  [getFiles] puts the copy of the MFT on the channel exactly when
    record 0 of the volume parses and some search term is named [$mft];
    it then puts one copy, named after the letter of the volume, and no
    other entry of the run carries the read half of a pipe.  The copy is
    on the channel whatever the walk and the closing of the pipe return
    afterwards. *)
Theorem getFiles_copies_mft_iff (w : World) (v : VolumeHandler) (st : State) :
  mftCopies (trace (getFiles w v st).1)
  = mftCopies (trace st) ++
    (if isErr (parseMFTRecord0 w v) then []
     else if bool_decide (Exists isMft (searchTerms_mem st))
          then [ {| fr_fullPath := VolumeLetter v +:+ "__$mft";
                    fr_reader := pipeR |} ]
          else []).
Proof.
  rewrite getFiles_getFilesRun.
  destruct (getFilesRun_terms w v st)
    as [(-> & _ & (_ & -> & _))|(-> & (_ & -> & _))]; [done|].
  by rewrite deleteMftTerm_found.
Qed.

(** The loop over the volumes from a backing array that the deletion
    loop leaves as it is. *)
Lemma forVolumes_fixed (w : World) vols st copy terms :
  deleteMftTerm (searchTerms_mem st) = (copy, searchTerms_mem st, terms) ->
  exists done,
    done `prefix_of` vols /\
    walkedWith st (forVolumes w vols st).1 (searchTerms_mem st)
      (if copy then map mftCopyOf done else []) (map (fun _ => terms) done) /\
    ((forVolumes w vols st).2 = Ok tt -> done = vols).
Proof.
  revert st. induction vols as [|v vols IH]; intros st Hfix.
  - exists []. split; [done|]. split; [|done]. simpl.
    destruct copy; apply walkedWith_refl.
  - rewrite forVolumes_cons. pose proof (oneVolume_terms w v st) as Hstep.
    rewrite Hfix in Hstep. simpl in Hstep.
    destruct (oneVolume w v st) as [st1 [[]|e]]; simpl in *.
    + assert (Hm : searchTerms_mem st1 = searchTerms_mem st) by apply Hstep.
      destruct (IH st1) as (done & Hpre & Hw & Hok); [by rewrite Hm|].
      exists (v :: done). split; [by apply prefix_cons|]. split.
      * rewrite Hm in Hw.
        pose proof (walkedWith_trans _ _ _ _ _ _ _ _ _ Hstep Hw) as H.
        destruct copy; exact H.
      * intros H. by rewrite (Hok H).
    + destruct Hstep as [Hstep|Hstep].
      * exists []. split; [apply prefix_nil|]. split; [|done].
        destruct copy; exact Hstep.
      * exists [v]. split; [apply prefix_cons, prefix_nil|]. split; [|done].
        destruct copy; exact Hstep.
Qed.

(** X11.  The deletion loop of [getFiles] writes into the array that
    [Collect] hands to every volume.  When one search term is named
    [$mft] and it is not the last term, only the first volume has its
    MFT copied: its walk is handed the terms without the [$mft] term,
    and every later volume is walked with the whole array, in which the
    [$mft] term is gone and the last term stands twice. *)
Theorem Collect_copies_first_mft_only (w : World)
    (exportList : list FileToExport) (l1 l2 : list searchTerms)
    (t z : searchTerms) :
  setupSearchTerms w (resolveEnv w exportList).1 = Ok (l1 ++ t :: l2 ++ [z]) ->
  Forall notMft l1 -> isMft t -> Forall notMft l2 -> notMft z ->
  let st := (Collect w exportList).1 in
  let vols := firstOccurrences (map (volumeOf w) (resolveEnv w exportList).1) in
  exists done,
    done `prefix_of` vols /\
    mftCopies (trace st) = map mftCopyOf (take 1 done) /\
    walkedTerms (trace st)
      = match done with
        | [] => []
        | _ :: later =>
            (l1 ++ z :: l2) :: map (fun _ => l1 ++ z :: l2 ++ [z]) later
        end /\
    ((Collect w exportList).2 = Ok tt -> done = vols).
Proof.
  intros Hsetup H1 Ht H2 Hz. simpl.
  destruct (Collect_stages w exportList)
    as [(He & Htr & _)|(vols & terms & Hv & Hterms & ->)].
  { exists []. rewrite Htr. split; [apply prefix_nil|]. repeat split.
    intros Hok. by rewrite Hok in He. }
  rewrite Hsetup in Hterms. injection Hterms as <-.
  rewrite <- (identifyVolumesOfInterest_order w _ _ Hv).
  destruct vols as [|v vols]; [by exists []|].
  rewrite forVolumes_cons.
  match goal with |- context [oneVolume w v ?s] =>
    pose proof (oneVolume_terms w v s) as Hstep;
    destruct (oneVolume w v s) as [st1 [[]|e]] end;
  simpl in Hstep; rewrite (deleteMftTerm_middle l1 t l2 z H1 Ht) in Hstep;
  simpl in Hstep.
  - assert (Hm : searchTerms_mem st1 = l1 ++ z :: l2 ++ [z]) by apply Hstep.
    assert (Hnone : Forall notMft (l1 ++ z :: l2 ++ [z])).
    { apply Forall_app. split; [done|]. apply Forall_cons. split; [done|].
      apply Forall_app. split; [done|]. by apply Forall_singleton. }
    destruct (forVolumes_fixed w vols st1 false (l1 ++ z :: l2 ++ [z]))
      as (done & Hpre & Hw & Hok).
    { rewrite Hm. by apply deleteMftTerm_none. }
    destruct (walkedWith_trans _ _ _ _ _ _ _ _ _ Hstep Hw) as (_ & Hc & Hwalk).
    exists (v :: done). split; [by apply prefix_cons|].
    split; [exact Hc|]. split; [exact Hwalk|].
    intros H. by rewrite (Hok H).
  - destruct Hstep as [(_ & Hc & Hwalk)|(_ & Hc & Hwalk)].
    + exists []. split; [apply prefix_nil|]. by repeat split.
    + exists [v]. split; [apply prefix_cons, prefix_nil|]. by repeat split.
Qed.

(** X12.  When the only search term named [$mft] is the last term, the
    deletion loop leaves the array as it is, and every volume that is
    walked has its MFT copied, whatever the volume of the request for
    the MFT. *)
Theorem Collect_copies_every_mft_when_term_is_last (w : World)
    (exportList : list FileToExport) (l1 : list searchTerms) (t : searchTerms) :
  setupSearchTerms w (resolveEnv w exportList).1 = Ok (l1 ++ [t]) ->
  Forall notMft l1 -> isMft t ->
  let st := (Collect w exportList).1 in
  let vols := firstOccurrences (map (volumeOf w) (resolveEnv w exportList).1) in
  exists done,
    done `prefix_of` vols /\
    mftCopies (trace st) = map mftCopyOf done /\
    walkedTerms (trace st) = map (fun _ => l1) done /\
    ((Collect w exportList).2 = Ok tt -> done = vols).
Proof.
  intros Hsetup H1 Ht. simpl.
  destruct (Collect_stages w exportList)
    as [(He & Htr & _)|(vols & terms & Hv & Hterms & ->)].
  { exists []. rewrite Htr. split; [apply prefix_nil|]. repeat split.
    intros Hok. by rewrite Hok in He. }
  rewrite Hsetup in Hterms. injection Hterms as <-.
  rewrite <- (identifyVolumesOfInterest_order w _ _ Hv).
  match goal with |- context [forVolumes w vols ?s] =>
    destruct (forVolumes_fixed w vols s true l1)
      as (done & Hpre & (_ & Hc & Hwalk) & Hok) end.
  { simpl. by apply deleteMftTerm_last. }
  exists done. by repeat split.
Qed.

(** X11, witness: the MFT of [C:] and a file of [D:] are asked for, in
    this order.  Volume [c] has its MFT copied; volume [d] is walked
    with the term of the file of [D:] twice. *)
Lemma Collect_copies_first_mft_only_witness :
  let mft := {| fullPathString := "c:\$mft"; fileNameString := "$mft" |} in
  let page := {| fullPathString := "d:\pagefile.sys";
                 fileNameString := "pagefile.sys" |} in
  let exportList := [reqMft; reqOn "D"] in
  setupSearchTerms soundWorld (resolveEnv soundWorld exportList).1
    = Ok ([] ++ mft :: [] ++ [page]) /\
  trace (Collect soundWorld exportList).1 <> [] /\
  exists done,
    done `prefix_of`
      firstOccurrences
        (map (volumeOf soundWorld) (resolveEnv soundWorld exportList).1) /\
    mftCopies (trace (Collect soundWorld exportList).1)
      = map mftCopyOf (take 1 done) /\
    walkedTerms (trace (Collect soundWorld exportList).1)
      = match done with
        | [] => []
        | _ :: later =>
            ([] ++ page :: []) :: map (fun _ => [] ++ page :: [] ++ [page]) later
        end /\
    ((Collect soundWorld exportList).2 = Ok tt ->
     done = firstOccurrences
              (map (volumeOf soundWorld) (resolveEnv soundWorld exportList).1)).
Proof.
  intros mft page exportList.
  split; [reflexivity|]. split; [vm_compute; discriminate|].
  apply (Collect_copies_first_mft_only soundWorld exportList [] [] mft page);
    [ reflexivity | constructor | reflexivity | constructor
    | vm_compute; discriminate ].
Defined.

(** X12, witness: the same two requests in the other order.  The MFT of
    [d], which nobody asked for, is copied as well as the MFT of
    [c]. *)
Lemma Collect_copies_every_mft_when_term_is_last_witness :
  let mft := {| fullPathString := "c:\$mft"; fileNameString := "$mft" |} in
  let page := {| fullPathString := "d:\pagefile.sys";
                 fileNameString := "pagefile.sys" |} in
  let exportList := [reqOn "D"; reqMft] in
  setupSearchTerms soundWorld (resolveEnv soundWorld exportList).1
    = Ok ([page] ++ [mft]) /\
  (Collect soundWorld exportList).2 = Ok tt /\
  exists done,
    done `prefix_of`
      firstOccurrences
        (map (volumeOf soundWorld) (resolveEnv soundWorld exportList).1) /\
    mftCopies (trace (Collect soundWorld exportList).1) = map mftCopyOf done /\
    walkedTerms (trace (Collect soundWorld exportList).1)
      = map (fun _ => [page]) done /\
    ((Collect soundWorld exportList).2 = Ok tt ->
     done = firstOccurrences
              (map (volumeOf soundWorld) (resolveEnv soundWorld exportList).1)).
Proof.
  intros mft page exportList.
  split; [reflexivity|]. split; [reflexivity|].
  apply (Collect_copies_every_mft_when_term_is_last soundWorld exportList
           [page] mft);
    [ reflexivity
    | apply Forall_singleton; vm_compute; discriminate
    | reflexivity ].
Defined.

(** ** The errors that [Collect] returns *)





